(** * pytest-gee: the helpers of [pytest_gee/utils.py]

    A shallow embedding of [wait], [get_task], [get_assets], [export_asset],
    [init_tree] and [delete_assets], written against an interface of the
    Earth Engine client ([ee]) and of the [time] module, together with the
    properties of these helpers.

    Conventions.
    - Python strings are [string]; [Union[str, Path]] is [string + PurePosixPath].
    - Clock readings and durations are integers, in seconds.
    - The remote account is a state of an arbitrary type [R]; the client calls
      are the methods of the class [EE R].  Calls that only query the account
      are functions of the state: they neither change it nor take time.
    - A run produces an [outcome]: the result (a value, a raised exception, or
      an exhausted loop budget), the final remote state and the calls made. *)

From Stdlib Require Import String Ascii List ZArith Bool Arith Lia.
From Stdlib Require Import Sorting.Permutation Sorting.Sorted.
Import ListNotations.
Local Open Scope string_scope.
Local Open Scope list_scope.

Set Implicit Arguments.
Set Warnings "-register-all".

(* ================================================================== *)
(** ** Strings and paths *)

(** [s.split(sep)] for a separator of one character. *)
Fixpoint split (sep : ascii) (s : string) : list string :=
  match s with
  | EmptyString => [EmptyString]
  | String c s' =>
      if Ascii.eqb c sep then EmptyString :: split sep s'
      else match split sep s' with
           | h :: t => String c h :: t
           | [] => [String c EmptyString]
           end
  end.

(** [sep.join(l)] *)
Fixpoint join (sep : string) (l : list string) : string :=
  match l with
  | [] => ""
  | [x] => x
  | x :: l' => (x ++ sep ++ join sep l')%string
  end.

Definition slash : ascii := "/"%char.

(** Number of leading ['/'] of a string. *)
Fixpoint leading_slashes (s : string) : nat :=
  match s with
  | String c s' => if Ascii.eqb c slash then S (leading_slashes s') else 0
  | EmptyString => 0
  end.

(** [pathlib.PurePosixPath]: a root (["" ], ["/"] or ["//"]) and the
    components, without the empty ones and without ["."]. *)
Record PurePosixPath := mkPath { path_root : string; path_parts : list string }.

Definition is_component (x : string) : bool :=
  negb (x =? "") && negb (x =? ".").

(** [PurePosixPath(s)] for a string [s]. *)
Definition parse_path (s : string) : PurePosixPath :=
  {| path_root := match leading_slashes s with
                  | 0 => ""
                  | 2 => "//"
                  | _ => "/"
                  end;
     path_parts := filter is_component (split slash s) |}.

(** [str(p)] and [p.as_posix()]. *)
Definition as_posix (p : PurePosixPath) : string :=
  let s := (path_root p ++ join "/" (path_parts p))%string in
  if s =? "" then "." else s.

(** [p / key] for a string [key]: an absolute [key] replaces [p]. *)
Definition joinpath (p : PurePosixPath) (key : string) : PurePosixPath :=
  let q := parse_path key in
  if path_root q =? "" then
    {| path_root := path_root p; path_parts := path_parts p ++ path_parts q |}
  else q.

(** A value of type [Union[str, Path]]. *)
Definition str_or_path : Type := string + PurePosixPath.

(** [x if isinstance(x, str) else x.as_posix()] *)
Definition to_str (x : str_or_path) : string :=
  match x with
  | inl s => s
  | inr p => as_posix p
  end.

(** [PurePosixPath(x)] *)
Definition to_path (x : str_or_path) : PurePosixPath :=
  match x with
  | inl s => parse_path s
  | inr p => p
  end.

(* ================================================================== *)
(** ** Data of the Earth Engine client *)

(** An asset record as the listing and metadata calls return it. *)
Record asset := mkAsset { type : string; name : string; id : string }.

(** The objects handed to [export_asset]. [Computed] stands for every
    computed object that is neither a feature collection nor an image. *)
Inductive ComputedObject :=
| FeatureCollection (src : string)
| Image (src : string)
| Computed (func : string) (arg : ComputedObject).

(** [image.geometry()] *)
Definition geometry (o : ComputedObject) : ComputedObject :=
  Computed "Image.geometry" o.

(** A batch task: its kind and its [config]. *)
Record Task := mkTask {
  task_type : string;
  config_description : string;
  config_assetId : string;
  config_element : ComputedObject;
  config_region : option ComputedObject
}.

(** [ee.batch.Export.table.toAsset(collection, description, assetId)] *)
Definition Export_table_toAsset (collection : ComputedObject)
    (description assetId : string) : Task :=
  {| task_type := "EXPORT_FEATURES";
     config_description := description;
     config_assetId := assetId;
     config_element := collection;
     config_region := None |}.

(** [ee.batch.Export.image.toAsset(region, image, description, assetId)] *)
Definition Export_image_toAsset (region image : ComputedObject)
    (description assetId : string) : Task :=
  {| task_type := "EXPORT_IMAGE";
     config_description := description;
     config_assetId := assetId;
     config_element := image;
     config_region := Some region |}.

Inductive exn :=
| AssertionError (msg : string)
| ValueError (msg : string)
| IndexError (msg : string)
| EEException (msg : string).

(** The calls a run makes, in order.  A status call carries what it
    observed. *)
Inductive call :=
| Sleep (secs : Z)
| TaskList
| TaskStatus (t : Task) (observed : exn + string)
| TaskStart (t : Task)
| ListAssets (parent : string)
| GetAsset (asset_id : string)
| GetAssetRoots
| CreateAsset (ty path : string)
| DeleteAsset (asset_id : string).

(** The client and the clock, over a remote state [R]. *)
Class EE (R : Type) := {
  (* time *)
  time_time : R -> Z;
  time_sleep : Z -> R -> R;
  (* ee.batch.Task *)
  Task_list : R -> exn + list Task;
  Task_status : Task -> R -> exn + string;
  Task_start : Task -> R -> (exn + unit) * R;
  (* ee.data *)
  listAssets : string -> R -> exn + list asset;
  getAsset : string -> R -> exn + asset;
  getAssetRoots : R -> exn + list asset;
  createAsset : string -> string -> R -> (exn + unit) * R;
  deleteAsset : string -> R -> (exn + unit) * R
}.

(* ================================================================== *)
(** ** Runs *)

Inductive result (A : Type) :=
| Ok (a : A)
| Raise (e : exn)
| OutOfFuel.
Arguments Raise {A} e.
Arguments OutOfFuel {A}.

Definition reply {A : Type} (x : exn + A) : result A :=
  match x with
  | inl e => Raise e
  | inr a => Ok a
  end.

Record outcome (R A : Type) := mkOutcome {
  res : result A;
  remote : R;
  trace : list call
}.

Definition M (R A : Type) : Type := R -> outcome R A.

Section Monad.
Context {R : Type}.

Definition ret {A} (a : A) : M R A :=
  fun r => {| res := Ok a; remote := r; trace := [] |}.

Definition raise {A} (e : exn) : M R A :=
  fun r => {| res := Raise e; remote := r; trace := [] |}.

Definition out_of_fuel {A} : M R A :=
  fun r => {| res := OutOfFuel; remote := r; trace := [] |}.

Definition bind {A B} (m : M R A) (f : A -> M R B) : M R B :=
  fun r =>
    let o := m r in
    match res o with
    | Ok a =>
        let o' := f a (remote o) in
        {| res := res o'; remote := remote o'; trace := trace o ++ trace o' |}
    | Raise e => {| res := Raise e; remote := remote o; trace := trace o |}
    | OutOfFuel => {| res := OutOfFuel; remote := remote o; trace := trace o |}
    end.

(** [for x in l: acc = f(acc, x)] *)
Fixpoint foldM {A B} (f : B -> A -> M R B) (l : list A) (acc : B) : M R B :=
  match l with
  | [] => ret acc
  | x :: l' => bind (f acc x) (foldM f l')
  end.
End Monad.

Declare Scope monad_scope.
Delimit Scope monad_scope with monad.
Notation "x <- m ;; k" := (bind m (fun x => k))
  (at level 61, m at next level, right associativity) : monad_scope.
Notation "m ;; k" := (bind m (fun _ => k))
  (at level 61, right associativity) : monad_scope.
Local Open Scope monad_scope.

Section Calls.
Context {R : Type} {ee : EE R}.

(** A call that queries the account. *)
Definition query {A} (c : call) (f : R -> exn + A) : M R A :=
  fun r => {| res := reply (f r); remote := r; trace := [c] |}.

(** A call that may change the account. *)
Definition command (c : call) (f : R -> (exn + unit) * R) : M R unit :=
  fun r => {| res := reply (fst (f r)); remote := snd (f r); trace := [c] |}.

Definition sleep (secs : Z) : M R unit :=
  fun r => {| res := Ok tt; remote := time_sleep secs r; trace := [Sleep secs] |}.

Definition now : M R Z :=
  fun r => {| res := Ok (time_time r); remote := r; trace := [] |}.

(** [task.status()["state"]] *)
Definition status (t : Task) : M R string :=
  fun r => {| res := reply (Task_status t r); remote := r;
              trace := [TaskStatus t (Task_status t r)] |}.
End Calls.

(* ================================================================== *)
(** ** The helpers *)

Section Helpers.
Context {R : Type} {ee : EE R}.

(** [get_task]: the first task of the user's task list with the given
    description, [None] when there is none. *)
Definition get_task (task_descripsion : string) : M R (option Task) :=
  tasks <- query TaskList Task_list ;;
  ret (find (fun t => config_description t =? task_descripsion) tasks).

(** The [while] loop of [wait]; [fuel] bounds the number of times its
    condition is evaluated. *)
Fixpoint wait_loop (fuel : nat) (task : Task) (timeout start_time : Z)
    (state : string) : M R string :=
  match fuel with
  | O => out_of_fuel
  | S fuel' =>
      continue <- (if negb (state =? "COMPLETED")
                   then t <- now ;; ret (t - start_time <? timeout)%Z
                   else ret false) ;;
      if (continue : bool) then
        sleep 5 ;;
        state <- status task ;;
        if state =? "FAILED" then ret state
        else wait_loop fuel' task timeout start_time state
      else ret state
  end.

Definition wait (fuel : nat) (task : Task + string) (timeout : Z)
    : M R string :=
  (* give 5 seconds of delay to GEE to make sure the task is created *)
  sleep 5 ;;
  (* init both the task object and the state *)
  task <- match task with
          | inl t => ret (Some t)
          | inr description => get_task description
          end ;;
  match task with
  | None => raise (AssertionError "The task is not found")
  | Some task =>
      let state := "UNSUBMITTED" in
      start_time <- now ;;
      wait_loop fuel task timeout start_time state
  end.

(** The default value of the [timeout] parameter of [wait]. *)
Definition default_timeout : Z := 60.

Definition is_folder (a : asset) : bool := type a =? "FOLDER".

(** [_recursive_get] of [get_assets]; [fuel] bounds the nesting of the
    recursive calls.  The list is one object, appended to in place and
    handed back by every call. *)
Fixpoint _recursive_get (fuel : nat) (folder : string)
    (asset_list : list asset) : M R (list asset) :=
  match fuel with
  | O => out_of_fuel
  | S fuel' =>
      assets <- query (ListAssets folder) (listAssets folder) ;;
      foldM (fun asset_list asset =>
               let asset_list := asset_list ++ [asset] in
               if is_folder asset
               then _recursive_get fuel' (name asset) asset_list
               else ret asset_list)
            assets asset_list
  end.

Definition get_assets (fuel : nat) (folder : str_or_path) : M R (list asset) :=
  let asset_list := [] in
  let folder := to_str folder in
  _recursive_get fuel folder asset_list.

Definition export_asset (fuel : nat) (object : ComputedObject)
    (asset_id : str_or_path) (description : string) : M R PurePosixPath :=
  let asset_id := to_str asset_id in
  task <- match object with
          | FeatureCollection _ =>
              ret (Export_table_toAsset object description asset_id)
          | Image _ =>
              ret (Export_image_toAsset (geometry object) object
                     description asset_id)
          | _ => raise (ValueError
                   "Only ee.Image and ee.FeatureCollection are supported")
          end ;;
  (* launch the task and wait for the end of exportation *)
  command (TaskStart task) (Task_start task) ;;
  wait fuel (inr description) default_timeout ;;
  ret (parse_path asset_id).

(** The values of the nested dictionary given to [init_tree]: a
    dictionary again, or anything else.  A dictionary is the list of its
    items, in order. *)
Inductive content :=
| Dict (items : list (string * content))
| Leaf (object : ComputedObject).

(** [for x in l: f(x)] *)
Definition for_each {A} (f : A -> M R unit) (l : list A) : M R unit :=
  foldM (fun _ x => f x) l tt.

(** The body of the [for] loop of [_recursive_create], for the item
    [(name, content)] of the dictionary being walked. *)
Fixpoint _recursive_create_item (fuel : nat) (prefix : string)
    (folder : str_or_path) (name : string) (content : content)
    {struct content} : M R unit :=
  let asset_id := joinpath (to_path folder) name in
  let description := (prefix ++ "_" ++ name)%string in
  match content with
  | Dict items =>
      command (CreateAsset "FOLDER" (as_posix asset_id))
              (createAsset "FOLDER" (as_posix asset_id)) ;;
      (* _recursive_create(content, prefix, asset_id) *)
      for_each (fun item => _recursive_create_item fuel prefix (inr asset_id)
                              (fst item) (snd item)) items
  | Leaf object =>
      export_asset fuel object (inr asset_id) description ;; ret tt
  end.

Definition _recursive_create (fuel : nat) (structure : list (string * content))
    (prefix : string) (folder : str_or_path) : M R unit :=
  for_each (fun item => _recursive_create_item fuel prefix folder
                          (fst item) (snd item)) structure.

(** [l[0]] *)
Definition first {A} (l : list A) : M R A :=
  match l with
  | x :: _ => ret x
  | [] => raise (IndexError "list index out of range")
  end.

Definition init_tree (fuel : nat) (structure : list (string * content))
    (prefix : string) (root : string) : M R PurePosixPath :=
  (* create the root folder *)
  roots <- query GetAssetRoots getAssetRoots ;;
  first_root <- first roots ;;
  let root := id first_root in
  let root_folder := (root ++ "/" ++ prefix)%string in
  command (CreateAsset "FOLDER" root_folder)
          (createAsset "FOLDER" root_folder) ;;
  (* start the recursive function *)
  _recursive_create fuel structure prefix (inl root_folder) ;;
  ret (parse_path root_folder).

(** [len(asset["id"].split("/"))] *)
Definition lvl (a : asset) : nat := length (split slash (id a)).

(** [d.setdefault(k, []); d[k].append(a)] on a dictionary given by its
    items in insertion order. *)
Fixpoint setdefault_append (k : nat) (a : asset)
    (d : list (nat * list asset)) : list (nat * list asset) :=
  match d with
  | [] => [(k, [a])]
  | (k', l) :: d' =>
      if Nat.eqb k' k then (k', l ++ [a]) :: d'
      else (k', l) :: setdefault_append k a d'
  end.

(** Insertion of an item in a list of items sorted by decreasing key. *)
Fixpoint insert_reverse (x : nat * list asset)
    (d : list (nat * list asset)) : list (nat * list asset) :=
  match d with
  | [] => [x]
  | y :: d' =>
      if Nat.leb (fst y) (fst x) then x :: y :: d'
      else y :: insert_reverse x d'
  end.

(** [sorted(d.items(), reverse=True)]: the items by decreasing key (the keys
    of a dictionary are distinct, so the values are never compared). *)
Definition sorted_reverse (d : list (nat * list asset))
    : list (nat * list asset) :=
  fold_right insert_reverse [] d.

(** The inner function [delete] of [delete_assets], on the list [output]. *)
Definition delete (dry_run : bool) (output : list string) (id : string)
    : M R (list string) :=
  let output := output ++ [id] in
  (if dry_run then ret tt
   else command (DeleteAsset id) (deleteAsset id)) ;;
  ret output.

Definition delete_assets (fuel : nat) (asset_id : str_or_path)
    (dry_run : bool) : M R (list string) :=
  (* convert the asset_id to a string *)
  let asset_id := to_str asset_id in
  let output := [] in
  (* identify the type of asset *)
  asset_info <- query (GetAsset asset_id) (getAsset asset_id) ;;
  output <- (if type asset_info =? "FOLDER" then
               (* get all the assets *)
               asset_list <- get_assets fuel (inl asset_id) ;;
               (* split the files by nesting levels *)
               let assets_ordered :=
                 fold_left (fun d asset => setdefault_append (lvl asset) asset d)
                           asset_list [] in
               (* delete all items starting from the more nested ones *)
               let assets_ordered := sorted_reverse assets_ordered in
               foldM (fun output item =>
                        foldM (fun output i => delete dry_run output (name i))
                              (snd item) output)
                     assets_ordered output
             else ret output) ;;
  (* delete the initial folder/asset *)
  delete dry_run output asset_id.
End Helpers.

(* ================================================================== *)
(** ** Reading a trace *)

(** The states the status calls of a run observed, in order. *)
Fixpoint polled (tr : list call) : list string :=
  match tr with
  | [] => []
  | TaskStatus _ (inr s) :: tr' => s :: polled tr'
  | _ :: tr' => polled tr'
  end.

(** The arguments of the delete calls of a run, in order. *)
Fixpoint deleted (tr : list call) : list string :=
  match tr with
  | [] => []
  | DeleteAsset x :: tr' => x :: deleted tr'
  | _ :: tr' => deleted tr'
  end.

Definition is_mutation (c : call) : bool :=
  match c with
  | TaskStart _ | CreateAsset _ _ | DeleteAsset _ => true
  | _ => false
  end.

(** The calls of a run that create, start or delete something. *)
Definition mutations (tr : list call) : list call := filter is_mutation tr.

(** A trace without a call that creates, starts or deletes. *)
Definition harmless (tr : list call) : Prop :=
  Forall (fun c => is_mutation c = false) tr.

(** A computation that only queries: the remote state is left as it was. *)
Definition read_only {R A} (m : M R A) : Prop :=
  forall r, remote (m r) = r /\ harmless (trace (m r)).

(** A step that appends to [output] what it deletes. *)
Definition appends_deleted {R} (m : M R (list string)) (output : list string) : Prop :=
  forall r out, res (m r) = Ok out -> out = output ++ deleted (trace (m r)).

(** Sleeping takes at least the time asked for. *)
Definition sleep_takes_time {R : Type} {ee : EE R} : Prop :=
  forall (secs : Z) (r : R), (time_time r + secs <= time_time (time_sleep secs r))%Z.

Definition terminal (s : string) : Prop := s = "COMPLETED" \/ s = "FAILED".

(* ================================================================== *)
(** ** What the helpers are expected to do *)

(** *** Listing: a folder hierarchy and its depth-first order *)

Inductive tree := Node (a : asset) (children : list tree).

Definition root (t : tree) : asset := match t with Node a _ => a end.

(** Depth-first, a parent before its children, siblings left to right. *)
Fixpoint preorder (t : tree) : list asset :=
  match t with
  | Node a children => a :: flat_map preorder children
  end.

Fixpoint depth (t : tree) : nat :=
  match t with
  | Node _ children => S (fold_right (fun c n => Nat.max (depth c) n) 0 children)
  end.

Definition height (forest : list tree) : nat :=
  fold_right (fun c n => Nat.max (depth c) n) 0 forest.

(** [mirrors r folder forest]: in the remote state [r], listing [folder]
    gives the roots of [forest] in this order, and so on below every root
    that is a folder; a root that is not a folder has no children in
    [forest]. *)
Inductive mirrors {R : Type} {ee : EE R} (r : R) : string -> list tree -> Prop :=
| mirrors_listing folder forest :
    listAssets folder r = inr (map root forest) ->
    mirrors_each r forest ->
    mirrors r folder forest
with mirrors_each {R : Type} {ee : EE R} (r : R) : list tree -> Prop :=
| mirrors_none : mirrors_each r []
| mirrors_folder a children rest :
    is_folder a = true ->
    mirrors r (name a) children ->
    mirrors_each r rest ->
    mirrors_each r (Node a children :: rest)
| mirrors_file a rest :
    is_folder a = false ->
    mirrors_each r rest ->
    mirrors_each r (Node a [] :: rest).

(** [inside t forest]: the tree [t] is one of [forest] or lies below one
    of them. *)
Inductive inside (t : tree) : list tree -> Prop :=
| inside_here forest : In t forest -> inside t forest
| inside_below a children forest :
    In (Node a children) forest -> inside t children -> inside t forest.

(** [x] occurs in [l] before an occurrence of [y]. *)
Definition before {A} (x y : A) (l : list A) : Prop :=
  exists l1 l2 l3, l = l1 ++ x :: l2 ++ y :: l3.

(** *** Deleting: deepest first *)

(** Number of segments of a path. *)
Definition segments (path : string) : nat := length (split slash path).

(** No entry is followed by a deeper one. *)
Definition deepest_first {A} (depth_of : A -> nat) (l : list A) : Prop :=
  StronglySorted (fun x y => depth_of y <= depth_of x) l.

(** The returned list consists of the ids of the listed assets, deepest
    first, and then of the input path. *)
Definition ids_deepest_first (listing : list asset) (asset_id : string)
    (out : list string) : Prop :=
  exists body,
    out = body ++ [asset_id] /\
    Permutation body (map id listing) /\
    deepest_first segments body.

(** The same with the names of the listed assets in place of their ids,
    the depth still being the one of the id. *)
Definition names_deepest_first (listing : list asset) (asset_id : string)
    (out : list string) : Prop :=
  exists ordered,
    out = map name ordered ++ [asset_id] /\
    Permutation ordered listing /\
    deepest_first lvl ordered.

(** Every item of the dictionary holds assets of the level that is its key. *)
Definition by_level (d : list (nat * list asset)) : Prop :=
  Forall (fun item => Forall (fun a => lvl a = fst item) (snd item)) d.

(** The keys never increase along the list. *)
Definition keys_decrease (d : list (nat * list asset)) : Prop :=
  StronglySorted (fun x y => fst y <= fst x) d.

(** *** Creating: the folders and exports of a tree specification *)

(** The export task of an exportable object. *)
Definition export_task (object : ComputedObject) (asset_id description : string)
    : option Task :=
  match object with
  | FeatureCollection _ =>
      Some {| task_type := "EXPORT_FEATURES";
              config_description := description;
              config_assetId := asset_id;
              config_element := object;
              config_region := None |}
  | Image _ =>
      Some {| task_type := "EXPORT_IMAGE";
              config_description := description;
              config_assetId := asset_id;
              config_element := object;
              config_region := Some (geometry object) |}
  | Computed _ _ => None
  end.

(** One folder per dictionary, then what is inside it; one export per
    leaf, to the asset named after its key, described [<prefix>_<name>]. *)
Fixpoint plan_item (prefix : string) (folder : PurePosixPath) (name : string)
    (c : content) : list call :=
  let asset_id := joinpath folder name in
  match c with
  | Dict items =>
      CreateAsset "FOLDER" (as_posix asset_id)
      :: flat_map (fun item => plan_item prefix asset_id (fst item) (snd item))
                  items
  | Leaf object =>
      match export_task object (as_posix asset_id)
                        (prefix ++ "_" ++ name)%string with
      | Some t => [TaskStart t]
      | None => []
      end
  end.

Definition plan (prefix : string) (folder : PurePosixPath)
    (structure : list (string * content)) : list call :=
  flat_map (fun item => plan_item prefix folder (fst item) (snd item)) structure.

(** The specification of the docstring of [init_tree]. *)
Definition example_structure : list (string * content) :=
  [ ("folder_1", Dict [ ("image", Leaf (Image "1"));
                        ("fc", Leaf (FeatureCollection "Point([0, 0])")) ]) ].

(** *** Further readings of a run *)

(** Number of status calls of a run, the failed ones included. *)
Fixpoint status_calls (tr : list call) : nat :=
  match tr with
  | [] => 0
  | TaskStatus _ _ :: tr' => S (status_calls tr')
  | _ :: tr' => status_calls tr'
  end.

(** The listing calls one makes for the folders of a list of assets. *)
Definition folder_listings (l : list asset) : list call :=
  map (fun a => ListAssets (name a)) (filter is_folder l).

(** [l] starts with [p]. *)
Definition initial_segment {A} (p l : list A) : Prop :=
  exists rest, l = p ++ rest.

(** The assets of a list that are at level [k], in the order of the list. *)
Definition at_level (k : nat) (l : list asset) : list asset :=
  filter (fun a => Nat.eqb (lvl a) k) l.

(** The values of a dictionary stored under the key [k], end to end. *)
Definition keyed (k : nat) (d : list (nat * list asset)) : list asset :=
  flat_map snd (filter (fun item => Nat.eqb (fst item) k) d).

(** The order in which [delete_assets] goes through a listing. *)
Definition deletion_order (listing : list asset) : list asset :=
  flat_map snd
    (sorted_reverse
       (fold_left (fun d asset => setdefault_append (lvl asset) asset d)
                  listing [])).

(** An outcome of deleting the ids [ids], in this order, while appending
    them to [output]: the run has terminated, the delete calls made are the
    first ones of [ids], and all of them when a list is returned. *)
Definition in_order {R} (o : outcome R (list string))
    (output ids : list string) : Prop :=
  res o <> OutOfFuel /\
  initial_segment (deleted (trace o)) ids /\
  (forall out, res o = Ok out -> out = output ++ ids /\ deleted (trace o) = ids).

Definition deletes_in_order {R} (m : M R (list string))
    (output ids : list string) : Prop :=
  forall r, in_order (m r) output ids.

(** A step of [init_tree] whose planned mutations are [planned]: the
    mutations made are the first ones of [planned], and all of them when
    it returns. *)
Definition follows_plan {R A} (m : M R A) (planned : list call) : Prop :=
  forall r,
    initial_segment (mutations (trace (m r))) planned /\
    (forall a, res (m r) = Ok a -> mutations (trace (m r)) = planned).

(** *** The polls of [wait] in time, and a plan carried out *)

(** The successful polls of a run that starts in the state [r], each with
    the time at which it was made: the sleeps of the run are replayed on
    [r], which is how the state evolves in a run of [wait]. *)
Fixpoint timed_polls {R : Type} {ee : EE R} (r : R) (tr : list call)
    : list (Z * string) :=
  match tr with
  | [] => []
  | Sleep secs :: tr' => timed_polls (time_sleep secs r) tr'
  | TaskStatus _ (inr s) :: tr' => (time_time r, s) :: timed_polls r tr'
  | _ :: tr' => timed_polls r tr'
  end.

(** [wait], called in the state [r] with [task], works on the task [t]:
    the task handed over, or the first task carrying the description in
    the listing made after the initial delay. *)
Definition resolves_to {R : Type} {ee : EE R} (r : R) (task : Task + string)
    (t : Task) : Prop :=
  match task with
  | inl t' => t' = t
  | inr description =>
      exists before after,
        Task_list (time_sleep 5 r) = inr (before ++ t :: after) /\
        Forall (fun t' => config_description t' <> description) before /\
        config_description t = description
  end.

(** The third case of the specification of [wait], as the specification
    words it: when no poll made before the timeout elapsed has observed a
    terminal state, the state returned is the last polled state that is
    not terminal. *)
Definition returns_last_nonterminal (timeout start_time : Z)
    (timed : list (Z * string)) (result : result string) : Prop :=
  (forall p, In p timed -> (fst p - start_time < timeout)%Z ->
             ~ terminal (snd p)) ->
  exists state earlier later,
    result = Ok state /\ ~ terminal state /\
    map snd timed = earlier ++ state :: later /\ Forall terminal later.

(** A value of the specification that [init_tree] can deal with: every
    leaf below it is a feature collection or an image. *)
Fixpoint exportable (c : content) : bool :=
  match c with
  | Dict items => forallb (fun item => exportable (snd item)) items
  | Leaf (FeatureCollection _) => true
  | Leaf (Image _) => true
  | Leaf (Computed _ _) => false
  end.

Definition all_exportable (structure : list (string * content)) : bool :=
  forallb (fun item => exportable (snd item)) structure.

(** A plan carried out on the remote state [r]: every folder is created,
    every task started and then waited for by its description; the state
    reached when each of these calls succeeds and each [wait] returns,
    [None] as soon as one does not. *)
Fixpoint perform {R : Type} {ee : EE R} (fuel : nat) (planned : list call)
    (r : R) : option R :=
  match planned with
  | [] => Some r
  | CreateAsset ty path :: rest =>
      match fst (createAsset ty path r) with
      | inr _ => perform fuel rest (snd (createAsset ty path r))
      | inl _ => None
      end
  | TaskStart t :: rest =>
      match fst (Task_start t r) with
      | inr _ =>
          let w := wait fuel (inr (config_description t)) default_timeout
                     (snd (Task_start t r)) in
          match res w with
          | Ok _ => perform fuel rest (remote w)
          | _ => None
          end
      | inl _ => None
      end
  | _ :: _ => None
  end.

(** A step of [init_tree] that returns exactly when its part of the
    specification is exportable and its plan can be carried out, and then
    leaves the state the plan leads to. *)
Definition carries_out {R : Type} {ee : EE R} (fuel : nat) (m : M R unit)
    (planned : list call) (ok : bool) : Prop :=
  forall r r',
    (ok = true /\ perform fuel planned r = Some r') <->
    (res (m r) = Ok tt /\ remote (m r) = r').

(* ================================================================== *)
(** ** An account in memory

    An instance of the client on which the helpers can be run: the assets
    are rows [(parent name, asset)] in listing order, a task started at
    time [t] is RUNNING until [t + export_time] and COMPLETED from then on,
    when its asset appears.  Time passes only while sleeping. *)

Module Fake.

Record task_row := mkTaskRow { the_task : Task; done_at : Z }.

Record account := mkAccount {
  clock : Z;
  export_time : Z;
  roots : list asset;
  rows : list (string * asset);
  tasks : list task_row
}.

Definition all_assets (acc : account) : list asset :=
  roots acc ++ map snd (rows acc).

Definition named (x : string) (a : asset) : bool :=
  (name a =? x) || (id a =? x).

(** Assets are addressed by name or by id. *)
Definition resolve (x : string) (acc : account) : string :=
  match find (named x) (all_assets acc) with
  | Some a => name a
  | None => x
  end.

(** [dirname] of an asset path. *)
Definition parent_of (path : string) : string :=
  let p := parse_path path in
  as_posix {| path_root := path_root p; path_parts := removelast (path_parts p) |}.

Definition exported (t : Task) : string * asset :=
  (parent_of (config_assetId t),
   {| type := if task_type t =? "EXPORT_IMAGE" then "IMAGE" else "TABLE";
      name := config_assetId t;
      id := config_assetId t |}).

Definition sleep (secs : Z) (acc : account) : account :=
  let t := (clock acc + secs)%Z in
  let finished :=
    filter (fun row => (clock acc <? done_at row)%Z && (done_at row <=? t)%Z)
           (tasks acc) in
  {| clock := t;
     export_time := export_time acc;
     roots := roots acc;
     rows := rows acc ++ map (fun row => exported (the_task row)) (rev finished);
     tasks := tasks acc |}.

Definition state_of (row : task_row) (acc : account) : string :=
  if (clock acc <? done_at row)%Z then "RUNNING" else "COMPLETED".

Definition task_status (t : Task) (acc : account) : exn + string :=
  match find (fun row => config_description (the_task row) =? config_description t)
             (tasks acc) with
  | Some row => inr (state_of row acc)
  | None => inl (EEException "Task not found")
  end.

Definition task_start (t : Task) (acc : account) : (exn + unit) * account :=
  (inr tt,
   {| clock := clock acc;
      export_time := export_time acc;
      roots := roots acc;
      rows := rows acc;
      tasks := {| the_task := t; done_at := clock acc + export_time acc |}
               :: tasks acc |}).

Definition list_assets (parent : string) (acc : account) : exn + list asset :=
  let p := resolve parent acc in
  inr (map snd (filter (fun row => fst row =? p) (rows acc))).

Definition get_asset (x : string) (acc : account) : exn + asset :=
  match find (named x) (all_assets acc) with
  | Some a => inr a
  | None => inl (EEException "Asset not found")
  end.

Definition create_asset (ty path : string) (acc : account)
    : (exn + unit) * account :=
  if existsb (named path) (all_assets acc)
  then (inl (EEException "Cannot overwrite asset"), acc)
  else (inr tt,
        {| clock := clock acc;
           export_time := export_time acc;
           roots := roots acc;
           rows := rows acc
                   ++ [(resolve (parent_of path) acc,
                        {| type := ty; name := path; id := path |})];
           tasks := tasks acc |}).

Definition delete_asset (x : string) (acc : account)
    : (exn + unit) * account :=
  match find (named x) (map snd (rows acc)) with
  | None => (inl (EEException "Asset not found"), acc)
  | Some a =>
      if existsb (fun row => fst row =? name a) (rows acc)
      then (inl (EEException "Asset is not empty"), acc)
      else (inr tt,
            {| clock := clock acc;
               export_time := export_time acc;
               roots := roots acc;
               rows := filter (fun row => negb (name (snd row) =? name a))
                              (rows acc);
               tasks := tasks acc |})
  end.

#[export] Instance client : EE account := {|
  time_time := clock;
  time_sleep := sleep;
  Task_list := fun acc => inr (map the_task (tasks acc));
  Task_status := task_status;
  Task_start := task_start;
  listAssets := list_assets;
  getAsset := get_asset;
  getAssetRoots := fun acc => inr (roots acc);
  createAsset := create_asset;
  deleteAsset := delete_asset
|}.

(** A cloud project: names and ids coincide. *)
Definition project : account :=
  {| clock := 1000;
     export_time := 12;
     roots := [ {| type := "FOLDER"; name := "projects/demo/assets";
                   id := "projects/demo/assets" |} ];
     rows := [];
     tasks := [] |}.

Definition legacy (x : string) : string :=
  ("projects/earthengine-legacy/assets/" ++ x)%string.

Definition legacy_asset (ty x : string) : asset :=
  {| type := ty; name := legacy x; id := x |}.

(** A legacy account: the name of an asset is its id behind a fixed
    prefix.  The folder [users/u/f] holds an image, and a folder [sub] with
    a table. *)
Definition legacy_account : account :=
  {| clock := 0;
     export_time := 12;
     roots := [ legacy_asset "FOLDER" "users/u" ];
     rows := [ (legacy "users/u", legacy_asset "FOLDER" "users/u/f");
               (legacy "users/u/f", legacy_asset "IMAGE" "users/u/f/img");
               (legacy "users/u/f", legacy_asset "FOLDER" "users/u/f/sub");
               (legacy "users/u/f/sub", legacy_asset "TABLE" "users/u/f/sub/fc") ];
     tasks := [] |}.

(** What listing [users/u/f] recursively gives, and its hierarchy. *)
Definition legacy_listing : list asset :=
  [ legacy_asset "IMAGE" "users/u/f/img";
    legacy_asset "FOLDER" "users/u/f/sub";
    legacy_asset "TABLE" "users/u/f/sub/fc" ].

Definition legacy_forest : list tree :=
  [ Node (legacy_asset "IMAGE" "users/u/f/img") [];
    Node (legacy_asset "FOLDER" "users/u/f/sub")
         [ Node (legacy_asset "TABLE" "users/u/f/sub/fc") [] ] ].

(** The names of a listing that was returned. *)
Definition fmap_names (x : result (list asset)) : option (list string) :=
  match x with
  | Ok l => Some (map name l)
  | _ => None
  end.

(** The export of an image, and the project once it is started. *)
Definition image_export : Task :=
  Export_image_toAsset (geometry (Image "1")) (Image "1") "toto_image"
                       "projects/demo/assets/image".

Definition exporting : account := snd (task_start image_export project).

(** A second export, started while the first one runs. *)
Definition table_export : Task :=
  Export_table_toAsset (FeatureCollection "Point([0, 0])") "toto_fc"
                       "projects/demo/assets/fc".

Definition two_exports : account := snd (task_start table_export exporting).

(** What a dry run of the deletion of [users/u/f] returns. *)
Definition legacy_dry_run : list string :=
  [ legacy "users/u/f/sub/fc"; legacy "users/u/f/img"; legacy "users/u/f/sub";
    "users/u/f" ].

End Fake.

(* ================================================================== *)
(** ** Properties *)

Unset Implicit Arguments.

Section Properties.
Context {R : Type} {ee : EE R}.

(** *** Runs *)

Lemma bind_Ok {A B} (m : M R A) (f : A -> M R B) (r : R) (b : B) :
  res (bind m f r) = Ok b ->
  exists a,
    res (m r) = Ok a /\
    res (f a (remote (m r))) = Ok b /\
    remote (bind m f r) = remote (f a (remote (m r))) /\
    trace (bind m f r) = trace (m r) ++ trace (f a (remote (m r))).
Proof.
  unfold bind. destruct (res (m r)) as [a| |] eqn:E; simpl; try discriminate.
  intros H. exists a. auto.
Qed.

Lemma bind_run_Ok {A B} (m : M R A) (f : A -> M R B) (r : R) (a : A) :
  res (m r) = Ok a ->
  bind m f r =
  {| res := res (f a (remote (m r)));
     remote := remote (f a (remote (m r)));
     trace := trace (m r) ++ trace (f a (remote (m r))) |}.
Proof. unfold bind. intros ->. reflexivity. Qed.

Lemma bind_run_Raise {A B} (m : M R A) (f : A -> M R B) (r : R) (e : exn) :
  res (m r) = Raise e ->
  bind m f r = {| res := Raise e; remote := remote (m r); trace := trace (m r) |}.
Proof. unfold bind. intros ->. reflexivity. Qed.

Lemma bind_run_OutOfFuel {A B} (m : M R A) (f : A -> M R B) (r : R) :
  res (m r) = OutOfFuel ->
  bind m f r = {| res := OutOfFuel; remote := remote (m r); trace := trace (m r) |}.
Proof. unfold bind. intros ->. reflexivity. Qed.

(** *** Traces *)

Lemma polled_app (t1 t2 : list call) : polled (t1 ++ t2) = polled t1 ++ polled t2.
Proof.
  induction t1 as [|c t1 IH]; simpl; auto.
  destruct c; simpl; auto. destruct observed; simpl; auto. now rewrite IH.
Qed.

Lemma deleted_app (t1 t2 : list call) :
  deleted (t1 ++ t2) = deleted t1 ++ deleted t2.
Proof.
  induction t1 as [|c t1 IH]; simpl; auto.
  destruct c; simpl; auto. now rewrite IH.
Qed.

Lemma mutations_app (t1 t2 : list call) :
  mutations (t1 ++ t2) = mutations t1 ++ mutations t2.
Proof. apply filter_app. Qed.

Lemma harmless_app (t1 t2 : list call) :
  harmless t1 -> harmless t2 -> harmless (t1 ++ t2).
Proof. unfold harmless. intros. apply Forall_app. auto. Qed.

Lemma harmless_mutations (tr : list call) : harmless tr -> mutations tr = [].
Proof.
  induction 1 as [|c tr Hc _ IH]; simpl; auto. now rewrite Hc.
Qed.

Lemma harmless_deleted (tr : list call) : harmless tr -> deleted tr = [].
Proof.
  induction 1 as [|c tr Hc _ IH]; simpl; auto.
  destruct c; simpl in *; auto. discriminate.
Qed.

Lemma read_only_ret {A} (a : A) : read_only (@ret R A a).
Proof. intros r. split; [reflexivity | constructor]. Qed.

Lemma read_only_raise {A} (e : exn) : read_only (@raise R A e).
Proof. intros r. split; [reflexivity | constructor]. Qed.

Lemma read_only_out_of_fuel {A} : read_only (@out_of_fuel R A).
Proof. intros r. split; [reflexivity | constructor]. Qed.

Lemma read_only_query {A} (c : call) (f : R -> exn + A) :
  is_mutation c = false -> read_only (query c f).
Proof. intros Hc r. split; [reflexivity | repeat constructor; exact Hc]. Qed.

Lemma read_only_bind {A B} (m : M R A) (f : A -> M R B) :
  read_only m -> (forall a, read_only (f a)) -> read_only (bind m f).
Proof.
  intros Hm Hf r. destruct (Hm r) as [Hr Ht]. unfold bind.
  destruct (res (m r)) as [a| |]; simpl; auto.
  destruct (Hf a (remote (m r))) as [Hr' Ht'].
  split; [congruence | now apply harmless_app].
Qed.

Lemma read_only_foldM {A B} (f : B -> A -> M R B) (l : list A) :
  (forall acc x, read_only (f acc x)) -> forall acc, read_only (foldM f l acc).
Proof.
  intros Hf. induction l as [|x l IH]; intros acc; simpl.
  - apply read_only_ret.
  - apply read_only_bind; auto.
Qed.

Lemma read_only__recursive_get (fuel : nat) :
  forall folder asset_list, read_only (_recursive_get fuel folder asset_list).
Proof.
  induction fuel as [|fuel IH]; intros folder asset_list; simpl.
  - apply read_only_out_of_fuel.
  - apply read_only_bind; [now apply read_only_query|].
    intros assets. apply read_only_foldM. intros acc x.
    destruct (is_folder x); [apply IH | apply read_only_ret].
Qed.

Lemma read_only_get_assets (fuel : nat) (folder : str_or_path) :
  read_only (get_assets fuel folder).
Proof. apply read_only__recursive_get. Qed.

Lemma read_only_delete_dry (output : list string) (x : string) :
  read_only (delete true output x).
Proof.
  unfold delete. apply read_only_bind; [apply read_only_ret|].
  intros _. apply read_only_ret.
Qed.

Lemma read_only_delete_assets_dry (fuel : nat) (asset_id : str_or_path) :
  read_only (delete_assets fuel asset_id true).
Proof.
  unfold delete_assets.
  apply read_only_bind; [now apply read_only_query|]. intros info.
  apply read_only_bind; [|intros; apply read_only_delete_dry].
  destruct (type info =? "FOLDER"); [|apply read_only_ret].
  apply read_only_bind; [apply read_only_get_assets|]. intros listing.
  apply read_only_foldM. intros acc item.
  apply read_only_foldM. intros acc' i. apply read_only_delete_dry.
Qed.

Lemma appends_deleted_delete (output : list string) (x : string) :
  appends_deleted (delete false output x) output.
Proof.
  intros r out. unfold delete, bind, command, ret. simpl.
  destruct (reply (fst (deleteAsset x r))); simpl; try discriminate.
  intros H. now inversion H.
Qed.

Lemma appends_deleted_foldM {A} (f : list string -> A -> M R (list string))
    (l : list A) :
  (forall acc x, appends_deleted (f acc x) acc) ->
  forall acc, appends_deleted (foldM f l acc) acc.
Proof.
  intros Hf. induction l as [|x l IH]; intros acc r out; simpl.
  - intros H. inversion H. now rewrite app_nil_r.
  - intros H. destruct (bind_Ok _ _ _ _ H) as (a & Ha & Hb & _ & Ht).
    rewrite Ht, deleted_app, app_assoc.
    rewrite <- (Hf acc x r a Ha). now apply IH.
Qed.

Lemma appends_deleted_after_read_only {A} (m : M R A)
    (f : A -> M R (list string)) (output : list string) :
  read_only m -> (forall a, appends_deleted (f a) output) ->
  appends_deleted (bind m f) output.
Proof.
  intros Hm Hf r out H. destruct (bind_Ok _ _ _ _ H) as (a & Ha & Hb & _ & Ht).
  rewrite Ht, deleted_app, (harmless_deleted _ (proj2 (Hm r))). simpl.
  now apply Hf.
Qed.

Lemma delete_Ok (dry_run : bool) (output : list string) (x : string) (r : R)
    (out : list string) :
  res (delete dry_run output x r) = Ok out -> out = output ++ [x].
Proof.
  unfold delete. intros H. destruct (bind_Ok _ _ _ _ H) as (a & _ & Hb & _).
  now inversion Hb.
Qed.

(** *** [delete_assets]: what is deleted *)

(** C2. In dry-run mode [delete_assets] leaves the remote state as it was
    and makes no delete call (nor any call that creates or starts
    something); with [dry_run = False], the delete calls it made when it
    returns are, in order and one for one, the ids of the list it
    returns. *)
Theorem delete_assets_deletes_what_it_returns (fuel : nat)
    (asset_id : str_or_path) (r : R) :
  (remote (delete_assets fuel asset_id true r) = r /\
   mutations (trace (delete_assets fuel asset_id true r)) = [] /\
   deleted (trace (delete_assets fuel asset_id true r)) = []) /\
  (forall out,
     res (delete_assets fuel asset_id false r) = Ok out ->
     deleted (trace (delete_assets fuel asset_id false r)) = out).
Proof.
  split.
  - destruct (read_only_delete_assets_dry fuel asset_id r) as [Hr Ht].
    auto using harmless_mutations, harmless_deleted.
  - intros out H. symmetry.
    change out with ([] ++ out).
    revert r out H. change (appends_deleted (delete_assets fuel asset_id false) []).
    unfold delete_assets.
    apply appends_deleted_after_read_only; [now apply read_only_query|].
    intros info r out H.
    destruct (bind_Ok _ _ _ _ H) as (mid & Hmid & Hlast & _ & Ht).
    rewrite Ht, deleted_app, app_assoc.
    assert (Hm : mid = [] ++ deleted (trace ((if type info =? "FOLDER"
               then asset_list <- get_assets fuel (inl (to_str asset_id)) ;;
                    foldM (fun output item =>
                             foldM (fun output i => delete false output (name i))
                                   (snd item) output)
                          (sorted_reverse
                             (fold_left (fun d asset =>
                                           setdefault_append (lvl asset) asset d)
                                        asset_list []))
                          []
               else ret []) r))).
    { revert Hmid. generalize r mid.
      change (appends_deleted (if type info =? "FOLDER"
               then asset_list <- get_assets fuel (inl (to_str asset_id)) ;;
                    foldM (fun output item =>
                             foldM (fun output i => delete false output (name i))
                                   (snd item) output)
                          (sorted_reverse
                             (fold_left (fun d asset =>
                                           setdefault_append (lvl asset) asset d)
                                        asset_list []))
                          []
               else ret []) []).
      destruct (type info =? "FOLDER").
      - apply appends_deleted_after_read_only; [apply read_only_get_assets|].
        intros listing. apply appends_deleted_foldM. intros acc item.
        apply appends_deleted_foldM. intros acc' i.
        apply appends_deleted_delete.
      - intros r' out' H'. now inversion H'. }
    rewrite <- Hm. now apply (appends_deleted_delete mid).
Qed.

(** C10. Whatever the mode, a list returned by [delete_assets] ends with
    the input path, so it is not empty; for an asset that is not a folder
    the list is that single entry, and it is returned: always in dry-run
    mode, and when the delete call succeeds otherwise. *)
Theorem delete_assets_ends_with_input (fuel : nat) (asset_id : str_or_path)
    (dry_run : bool) (r : R) :
  (forall out,
     res (delete_assets fuel asset_id dry_run r) = Ok out ->
     out <> [] /\ last out "" = to_str asset_id) /\
  (forall info,
     getAsset (to_str asset_id) r = inr info ->
     type info <> "FOLDER" ->
     (forall out,
        res (delete_assets fuel asset_id dry_run r) = Ok out ->
        out = [to_str asset_id]) /\
     (dry_run = true \/ fst (deleteAsset (to_str asset_id) r) = inr tt ->
      res (delete_assets fuel asset_id dry_run r) = Ok [to_str asset_id])).
Proof.
  split.
  - intros out H. unfold delete_assets in H.
    destruct (bind_Ok _ _ _ _ H) as (info & _ & H1 & _).
    destruct (bind_Ok _ _ _ _ H1) as (mid & _ & H2 & _).
    apply delete_Ok in H2. subst out. split.
    + intros E. now apply app_eq_nil in E as [_ E].
    + apply last_last.
  - intros info Hinfo Hty.
    assert (Hno : (type info =? "FOLDER") = false) by now apply String.eqb_neq.
    assert (E : delete_assets fuel asset_id dry_run r =
                {| res := res (delete dry_run [] (to_str asset_id) r);
                   remote := remote (delete dry_run [] (to_str asset_id) r);
                   trace := [GetAsset (to_str asset_id)] ++ [] ++
                            trace (delete dry_run [] (to_str asset_id) r) |}).
    { unfold delete_assets.
      rewrite (bind_run_Ok _ _ _ info) by (unfold query; simpl; now rewrite Hinfo).
      simpl remote. rewrite Hno.
      rewrite (bind_run_Ok _ _ _ []) by reflexivity. reflexivity. }
    rewrite E. simpl res. split.
    + intros out H. now apply delete_Ok in H.
    + unfold delete, bind, command, ret. simpl.
      intros [-> | Hdel]; [reflexivity|].
      destruct dry_run; simpl; [reflexivity|]. now rewrite Hdel.
Qed.

(** *** [wait] *)

Lemma wait_loop_step (fuel : nat) (task : Task) (timeout start : Z)
    (state : string) (r : R) :
  wait_loop (S fuel) task timeout start state r =
  if negb (state =? "COMPLETED") && (time_time r - start <? timeout)%Z then
    let r1 := time_sleep 5 r in
    match Task_status task r1 with
    | inl e => {| res := Raise e; remote := r1;
                  trace := [Sleep 5; TaskStatus task (inl e)] |}
    | inr s =>
        if s =? "FAILED" then
          {| res := Ok s; remote := r1;
             trace := [Sleep 5; TaskStatus task (inr s)] |}
        else
          let o := wait_loop fuel task timeout start s r1 in
          {| res := res o; remote := remote o;
             trace := Sleep 5 :: TaskStatus task (inr s) :: trace o |}
    end
  else {| res := Ok state; remote := r; trace := [] |}.
Proof.
  simpl. unfold bind, now, ret, sleep, status. simpl.
  destruct (state =? "COMPLETED"); simpl; [reflexivity|].
  destruct (time_time r - start <? timeout)%Z; simpl; [|reflexivity].
  destruct (Task_status task (time_sleep 5 r)) as [e|s]; simpl; [reflexivity|].
  destruct (s =? "FAILED"); reflexivity.
Qed.

Lemma wait_loop_harmless (task : Task) (timeout start : Z) (fuel : nat) :
  forall state r, harmless (trace (wait_loop fuel task timeout start state r)).
Proof.
  induction fuel as [|fuel IH]; intros state r.
  - constructor.
  - rewrite wait_loop_step.
    destruct (negb (state =? "COMPLETED") && (time_time r - start <? timeout)%Z);
      [|constructor].
    simpl. destruct (Task_status task (time_sleep 5 r)) as [e|s].
    + repeat constructor.
    + destruct (s =? "FAILED"); simpl; repeat constructor. apply IH.
Qed.

Lemma wait_run (fuel : nat) (task : Task + string) (timeout : Z) (r : R) :
  wait fuel task timeout r =
  let r0 := time_sleep 5 r in
  let loop t := wait_loop fuel t timeout (time_time r0) "UNSUBMITTED" r0 in
  match task with
  | inl t =>
      {| res := res (loop t); remote := remote (loop t);
         trace := Sleep 5 :: trace (loop t) |}
  | inr description =>
      match Task_list r0 with
      | inl e => {| res := Raise e; remote := r0; trace := [Sleep 5; TaskList] |}
      | inr tasks =>
          match find (fun t => config_description t =? description) tasks with
          | Some t =>
              {| res := res (loop t); remote := remote (loop t);
                 trace := Sleep 5 :: TaskList :: trace (loop t) |}
          | None =>
              {| res := Raise (AssertionError "The task is not found");
                 remote := r0; trace := [Sleep 5; TaskList] |}
          end
      end
  end.
Proof.
  unfold wait, get_task, bind, sleep, now, query, ret, raise. simpl.
  destruct task as [t|d]; simpl; [reflexivity|].
  destruct (Task_list (time_sleep 5 r)) as [e|tasks]; simpl; [reflexivity|].
  destruct (find _ tasks); simpl; reflexivity.
Qed.

Lemma wait_harmless (fuel : nat) (task : Task + string) (timeout : Z) (r : R) :
  harmless (trace (wait fuel task timeout r)).
Proof.
  rewrite wait_run. cbv zeta.
  destruct task as [t|d]; simpl.
  - constructor; [reflexivity|]. apply wait_loop_harmless.
  - destruct (Task_list (time_sleep 5 r)) as [e|tasks]; simpl.
    + repeat constructor.
    + destruct (find _ tasks); simpl; repeat constructor.
      apply wait_loop_harmless.
Qed.

(** The loop, started with enough fuel for the time that is left: either
    its condition fails at once, or it polls, every poll but the last
    observing a state that is not terminal, until a poll observes a
    terminal state, the timeout has elapsed, or a status call raises; the
    last status call is the last call of the loop. *)
Lemma wait_loop_polls (task : Task) (timeout start : Z) :
  sleep_takes_time ->
  forall (fuel : nat) (state : string) (r : R),
    1 <= fuel ->
    (start + timeout - time_time r <= 5 * (Z.of_nat fuel - 1))%Z ->
    let o := wait_loop fuel task timeout start state r in
    (res o = Ok state /\ trace o = [] /\ remote o = r /\
     (state = "COMPLETED" \/ (timeout <= time_time r - start)%Z))
    \/
    (state <> "COMPLETED" /\
     exists earlier tr,
       Forall (fun s => ~ terminal s) earlier /\
       ((exists s, res o = Ok s /\ polled (trace o) = earlier ++ [s] /\
                   trace o = tr ++ [TaskStatus task (inr s)] /\
                   (terminal s \/ (timeout <= time_time (remote o) - start)%Z))
        \/
        (exists e, res o = Raise e /\ polled (trace o) = earlier /\
                   trace o = tr ++ [TaskStatus task (inl e)]))).
Proof.
  intros Hclock. induction fuel as [|fuel IH]; intros state r Hfuel Hleft; [lia|].
  cbv zeta. rewrite wait_loop_step.
  destruct (state =? "COMPLETED") eqn:Hc; simpl negb; simpl andb.
  { left. apply String.eqb_eq in Hc. auto. }
  apply String.eqb_neq in Hc.
  destruct (time_time r - start <? timeout)%Z eqn:Ht.
  2:{ left. apply Z.ltb_ge in Ht. auto. }
  apply Z.ltb_lt in Ht. right. split; [exact Hc|].
  pose proof (Hclock 5%Z r) as Hs. cbv zeta.
  destruct (Task_status task (time_sleep 5 r)) as [e|s] eqn:Hst.
  - exists [], [Sleep 5]. split; [constructor|]. right. exists e. simpl. auto.
  - destruct (s =? "FAILED") eqn:Hf.
    + apply String.eqb_eq in Hf. exists [], [Sleep 5]. split; [constructor|].
      left. exists s. simpl. repeat split. left. right. exact Hf.
    + apply String.eqb_neq in Hf.
      destruct (IH s (time_sleep 5 r)) as
        [(Hres & Htr & Hrem & Hend) | (Hs' & earlier & tr & Hall & Hcases)];
        [lia | lia | |].
      * exists [], [Sleep 5]. split; [constructor|]. left. exists s. simpl.
        rewrite Htr, Hrem. simpl. repeat split; [exact Hres|].
        destruct Hend as [Hend|Hend]; [left; left; exact Hend | right; exact Hend].
      * exists (s :: earlier), (Sleep 5 :: TaskStatus task (inr s) :: tr). split.
        { constructor; [|exact Hall]. intros [E|E]; contradiction. }
        destruct Hcases as [(s' & Hres & Hp & Htr & Hend) | (e & Hres & Hp & Htr)].
        -- left. exists s'. simpl. rewrite Hp, Htr. auto.
        -- right. exists e. simpl. rewrite Hp, Htr. auto.
Qed.

Lemma wait_loop_terminates (task : Task) (timeout start : Z) (fuel : nat)
    (state : string) (r : R) :
  sleep_takes_time ->
  1 <= fuel ->
  (start + timeout - time_time r <= 5 * (Z.of_nat fuel - 1))%Z ->
  res (wait_loop fuel task timeout start state r) <> OutOfFuel.
Proof.
  intros Hclock Hfuel Hleft.
  destruct (wait_loop_polls task timeout start Hclock fuel state r Hfuel Hleft)
    as [(H & _) | (_ & earlier & tr & _ & [(s & H & _) | (e & H & _)])];
    rewrite H; discriminate.
Qed.

Lemma wait_terminates (fuel : nat) (task : Task + string) (timeout : Z) (r : R) :
  sleep_takes_time ->
  1 <= fuel ->
  (timeout <= 5 * (Z.of_nat fuel - 1))%Z ->
  res (wait fuel task timeout r) <> OutOfFuel.
Proof.
  intros Hclock Hfuel Hleft. rewrite wait_run. cbv zeta.
  destruct task as [t|d]; simpl.
  - apply wait_loop_terminates; auto. lia.
  - destruct (Task_list (time_sleep 5 r)) as [e|tasks]; simpl; [discriminate|].
    destruct (find _ tasks); simpl; [|discriminate].
    apply wait_loop_terminates; auto. lia.
Qed.

(** C4, as the code has it.  With [timeout = 0] the condition of the loop
    is false the first time it is evaluated, since the elapsed time is not
    below 0: [wait] returns "UNSUBMITTED" after its initial delay, without
    one poll of the task. *)
Theorem wait_timeout_zero_never_polls (fuel : nat) (task : Task) (r : R) :
  let o := wait (S fuel) (inl task) 0 r in
  res o = Ok "UNSUBMITTED" /\ trace o = [Sleep 5] /\ polled (trace o) = [].
Proof.
  cbv zeta. rewrite wait_run. cbv beta iota zeta. rewrite wait_loop_step.
  rewrite Z.sub_diag. simpl. auto.
Qed.

(** C6. Given a description that no task of the task list carries, [wait]
    raises the assertion error "The task is not found" after its initial
    delay and one lookup of the task list: no status call is made, and the
    lookup is not made again. *)
Theorem wait_unknown_description (fuel : nat) (description : string)
    (timeout : Z) (r : R) (tasks : list Task) :
  Task_list (time_sleep 5 r) = inr tasks ->
  (forall t, In t tasks -> config_description t <> description) ->
  let o := wait fuel (inr description) timeout r in
  res o = Raise (AssertionError "The task is not found") /\
  trace o = [Sleep 5; TaskList] /\
  polled (trace o) = [].
Proof.
  intros Hlist Hnone. cbv zeta. rewrite wait_run. cbv zeta. rewrite Hlist.
  destruct (find (fun t => config_description t =? description) tasks)
    as [t|] eqn:Hfind.
  - exfalso. apply find_some in Hfind as [Hin Heq].
    apply String.eqb_eq in Heq. exact (Hnone t Hin Heq).
  - simpl. auto.
Qed.

(** *** [export_asset] *)

Lemma export_asset_run (fuel : nat) (object : ComputedObject)
    (asset_id : str_or_path) (description : string) (r : R) (task : Task) :
  export_task object (to_str asset_id) description = Some task ->
  export_asset fuel object asset_id description r =
  match fst (Task_start task r) with
  | inl e => {| res := Raise e; remote := snd (Task_start task r);
                trace := [TaskStart task] |}
  | inr _ =>
      let w := wait fuel (inr description) default_timeout
                 (snd (Task_start task r)) in
      {| res := match res w with
                | Ok _ => Ok (parse_path (to_str asset_id))
                | Raise e => Raise e
                | OutOfFuel => OutOfFuel
                end;
         remote := remote w;
         trace := TaskStart task :: trace w |}
  end.
Proof.
  intros Htask. unfold export_asset.
  destruct object; simpl in Htask; try discriminate; injection Htask as <-.
  all: unfold bind, command, ret; cbn [res remote trace reply app].
  all: destruct (fst (Task_start _ r)) as [e|u]; cbn [res remote trace reply app];
    [reflexivity|].
  all: destruct (res (wait fuel (inr description) default_timeout _));
    cbn [app]; rewrite ?app_nil_r; reflexivity.
Qed.

(** C5. Given an object that is neither a feature collection nor an image,
    [export_asset] raises the error "Only ee.Image and ee.FeatureCollection
    are supported" having made no call at all.  Given a feature collection
    or an image, its first call starts the export task of that object, with
    the description and asset id given; when the task is started, what
    follows is [wait] on the description with the default timeout, and
    [export_asset] returns exactly when that [wait] returns, the value being
    the asset path.  With fuel for the default timeout it terminates. *)
Theorem export_asset_dispatch (fuel : nat) (object : ComputedObject)
    (asset_id : str_or_path) (description : string) (r : R) :
  let o := export_asset fuel object asset_id description r in
  (export_task object (to_str asset_id) description = None ->
     res o = Raise (ValueError
                      "Only ee.Image and ee.FeatureCollection are supported") /\
     trace o = [] /\ remote o = r) /\
  (forall task,
     export_task object (to_str asset_id) description = Some task ->
     (exists rest, trace o = TaskStart task :: rest) /\
     (fst (Task_start task r) = inr tt ->
        let w := wait fuel (inr description) default_timeout
                   (snd (Task_start task r)) in
        trace o = TaskStart task :: trace w /\
        remote o = remote w /\
        (forall p, res o = Ok p <->
                   p = parse_path (to_str asset_id) /\
                   exists state, res w = Ok state))) /\
  (sleep_takes_time -> 13 <= fuel -> res o <> OutOfFuel).
Proof.
  cbv zeta. split; [|split].
  - unfold export_asset. destruct object; simpl; try discriminate. auto.
  - intros task Htask. rewrite (export_asset_run _ _ _ _ _ _ Htask).
    split.
    + destruct (fst (Task_start task r)); simpl; eauto.
    + intros ->. cbv zeta. cbn [res remote trace].
      split; [reflexivity|]. split; [reflexivity|]. intros p.
      destruct (res (wait fuel (inr description) default_timeout
                       (snd (Task_start task r)))) as [state| |].
      * split.
        -- intros H. inversion H. split; [reflexivity | now exists state].
        -- intros [-> _]. reflexivity.
      * split; [discriminate | intros [_ [state Hs]]; discriminate].
      * split; [discriminate | intros [_ [state Hs]]; discriminate].
  - intros Hclock Hfuel.
    destruct (export_task object (to_str asset_id) description) as [task|]
      eqn:Htask.
    + rewrite (export_asset_run _ _ _ _ _ _ Htask).
      destruct (fst (Task_start task r)); cbn [res]; [discriminate|].
      cbv zeta. cbn [res].
      pose proof (wait_terminates fuel (inr description) default_timeout
                    (snd (Task_start task r)) Hclock) as Hw.
      destruct (res (wait fuel (inr description) default_timeout
                       (snd (Task_start task r)))); try discriminate.
      exfalso. apply Hw; unfold default_timeout; [lia | lia | reflexivity].
    + unfold export_asset. destruct object; simpl in *; discriminate.
Qed.

(** *** [init_tree] *)

(** C9. The argument [root] of [init_tree] is not used: two calls that
    differ only in it are the same computation, so that from every remote
    state they make the same calls, leave the same state and return the
    same path, the root being the id of the first asset root of the
    account. *)
Theorem init_tree_ignores_root (fuel : nat) (structure : list (string * content))
    (prefix root root' : string) (r : R) :
  init_tree fuel structure prefix root r = init_tree fuel structure prefix root' r
  /\ forall p,
       res (init_tree fuel structure prefix root r) = Ok p ->
       exists first_root others,
         getAssetRoots r = inr (first_root :: others) /\
         p = parse_path (id first_root ++ "/" ++ prefix)%string.
Proof.
  split; [reflexivity|].
  intros p H. unfold init_tree in H.
  apply bind_Ok in H as (roots & Hroots & H & _).
  apply bind_Ok in H as (first_root & Hfirst & H & _).
  apply bind_Ok in H as (u & _ & H & _).
  apply bind_Ok in H as (u' & _ & H & _).
  inversion H. unfold query in Hroots, Hfirst. simpl in Hroots, Hfirst.
  destruct roots as [|a others]; [discriminate|].
  inversion Hfirst; subst a.
  exists first_root, others. split; [|reflexivity].
  destruct (getAssetRoots r); simpl in Hroots; [discriminate|].
  now inversion Hroots.
Qed.

Lemma content_induction (P : content -> Prop) :
  (forall items, Forall (fun item => P (snd item)) items -> P (Dict items)) ->
  (forall object, P (Leaf object)) ->
  forall c, P c.
Proof.
  intros HD HL. fix IH 1. intros [items|object]; [|apply HL].
  apply HD. induction items as [|item items IHitems]; constructor.
  - apply IH.
  - exact IHitems.
Qed.

(** A loop over steps that terminate and whose mutations are known. *)
Lemma for_each_mutations {A} (f : A -> M R unit) (g : A -> list call)
    (l : list A) :
  Forall (fun x => forall r,
            res (f x r) <> OutOfFuel /\
            (forall u, res (f x r) = Ok u -> mutations (trace (f x r)) = g x)) l ->
  forall r,
    res (for_each f l r) <> OutOfFuel /\
    (forall u, res (for_each f l r) = Ok u ->
               mutations (trace (for_each f l r)) = flat_map g l).
Proof.
  unfold for_each. induction 1 as [|x l Hx _ IH]; intros r; simpl.
  - split; [discriminate | reflexivity].
  - destruct (Hx r) as [Hfuel Hmut]. unfold bind.
    destruct (res (f x r)) as [u| |] eqn:Hres; cbn [res trace].
    + destruct (IH (remote (f x r))) as [Hfuel' Hmut'].
      destruct u. split; [exact Hfuel'|].
      intros u' H. rewrite mutations_app, (Hmut tt eq_refl), (Hmut' u' H).
      reflexivity.
    + split; discriminate.
    + contradiction.
Qed.

Lemma command_run (c : call) (f : R -> (exn + unit) * R) (k : M R unit) (r : R) :
  (command c f ;; k) r =
  match fst (f r) with
  | inl e => {| res := Raise e; remote := snd (f r); trace := [c] |}
  | inr _ => {| res := res (k (snd (f r))); remote := remote (k (snd (f r)));
                trace := c :: trace (k (snd (f r))) |}
  end.
Proof.
  unfold bind, command. cbn [res remote trace].
  destruct (fst (f r)); reflexivity.
Qed.

Lemma then_ret_run {A B} (m : M R A) (b : B) (r : R) :
  (m ;; ret b) r =
  {| res := match res (m r) with
            | Ok _ => Ok b
            | Raise e => Raise e
            | OutOfFuel => OutOfFuel
            end;
     remote := remote (m r);
     trace := trace (m r) |}.
Proof.
  unfold bind, ret. destruct (res (m r)); cbn [res remote trace];
    rewrite ?app_nil_r; reflexivity.
Qed.

(** One item of the specification: the run terminates, and when it does
    not raise, its mutations are the planned ones. *)
Lemma _recursive_create_item_plan (fuel : nat) (prefix : string) :
  sleep_takes_time ->
  13 <= fuel ->
  forall (c : content) (folder : str_or_path) (name : string) (r : R),
    let o := _recursive_create_item fuel prefix folder name c r in
    res o <> OutOfFuel /\
    (forall u, res o = Ok u ->
               mutations (trace o) = plan_item prefix (to_path folder) name c).
Proof.
  intros Hclock Hfuel c.
  induction c as [items IH|object] using content_induction;
    intros folder name r; cbv zeta.
  - cbn [_recursive_create_item plan_item]. rewrite command_run.
    set (asset_id := joinpath (to_path folder) name) in *.
    destruct (fst (createAsset "FOLDER" (as_posix asset_id) r));
      [split; discriminate|].
    cbn [res trace].
    destruct (for_each_mutations
                (fun item => _recursive_create_item fuel prefix (inr asset_id)
                               (fst item) (snd item))
                (fun item => plan_item prefix asset_id (fst item) (snd item))
                items) with (r := snd (createAsset "FOLDER" (as_posix asset_id) r))
      as [Hfuel' Hmut'].
    { rewrite Forall_forall in IH. apply Forall_forall. intros item Hin r'.
      exact (IH item Hin (inr asset_id) (fst item) r'). }
    split; [exact Hfuel'|]. intros u' H.
    change (mutations (?c :: ?t)) with (c :: mutations t).
    now rewrite (Hmut' u' H).
  - cbn [_recursive_create_item plan_item].
    set (asset_id := joinpath (to_path folder) name).
    set (description := (prefix ++ "_" ++ name)%string).
    rewrite then_ret_run. cbn [res remote trace].
    destruct (export_task object (as_posix asset_id) description) as [task|]
      eqn:Htask.
    + rewrite (export_asset_run fuel object (inr asset_id) description r task Htask).
      destruct (fst (Task_start task r)); cbn [res]; [split; discriminate|].
      cbv zeta. cbn [res trace remote].
      pose proof (wait_terminates fuel (inr description) default_timeout
                    (snd (Task_start task r)) Hclock) as Hw.
      pose proof (wait_harmless fuel (inr description) default_timeout
                    (snd (Task_start task r))) as Hh.
      destruct (res (wait fuel (inr description) default_timeout
                       (snd (Task_start task r)))).
      * split; [discriminate|]. intros u' _.
        change (mutations (?c :: ?t)) with (c :: mutations t).
        now rewrite (harmless_mutations _ Hh).
      * split; discriminate.
      * exfalso. apply Hw; unfold default_timeout; [lia | lia | reflexivity].
    + assert (E : res (export_asset fuel object (inr asset_id) description r)
                  = Raise (ValueError
                      "Only ee.Image and ee.FeatureCollection are supported")).
      { unfold export_asset. destruct object; simpl in Htask; try discriminate.
        reflexivity. }
      rewrite E. split; discriminate.
Qed.

Lemma init_tree_run (fuel : nat) (structure : list (string * content))
    (prefix root : string) (r : R) :
  init_tree fuel structure prefix root r =
  match getAssetRoots r with
  | inl e => {| res := Raise e; remote := r; trace := [GetAssetRoots] |}
  | inr [] => {| res := Raise (IndexError "list index out of range");
                 remote := r; trace := [GetAssetRoots] |}
  | inr (first_root :: _) =>
      let root_folder := (id first_root ++ "/" ++ prefix)%string in
      let created := createAsset "FOLDER" root_folder r in
      match fst created with
      | inl e => {| res := Raise e; remote := snd created;
                    trace := [GetAssetRoots; CreateAsset "FOLDER" root_folder] |}
      | inr _ =>
          let c := _recursive_create fuel structure prefix (inl root_folder)
                     (snd created) in
          {| res := match res c with
                    | Ok _ => Ok (parse_path root_folder)
                    | Raise e => Raise e
                    | OutOfFuel => OutOfFuel
                    end;
             remote := remote c;
             trace := GetAssetRoots :: CreateAsset "FOLDER" root_folder
                      :: trace c |}
      end
  end.
Proof.
  unfold init_tree, bind, query, command, first, ret, raise.
  cbn [res remote trace reply app].
  destruct (getAssetRoots r) as [e|[|first_root others]];
    cbn [res remote trace reply app]; try reflexivity.
  destruct (fst (createAsset "FOLDER" _ r)); cbn [res remote trace reply app];
    [reflexivity|].
  destruct (res (_recursive_create fuel structure prefix _ _));
    cbn [res remote trace reply app]; rewrite ?app_nil_r; reflexivity.
Qed.

(** *** [get_assets] *)

Lemma _recursive_get_run (fuel : nat) (folder : string) (asset_list : list asset)
    (r : R) (assets : list asset) :
  listAssets folder r = inr assets ->
  res (_recursive_get (S fuel) folder asset_list r) =
  res (foldM (fun asset_list asset =>
                let asset_list := asset_list ++ [asset] in
                if is_folder asset
                then _recursive_get fuel (name asset) asset_list
                else ret asset_list)
             assets asset_list r).
Proof.
  intros H. cbn [_recursive_get]. unfold bind at 1, query at 1.
  cbn [res remote trace]. rewrite H. reflexivity.
Qed.

Lemma height_cons (a : asset) (children rest : list tree) (n : nat) :
  height (Node a children :: rest) <= n ->
  height children < n /\ height rest <= n.
Proof.
  unfold height. cbn [fold_right depth]. fold (height children).
  unfold height. lia.
Qed.

(** The recursion of [get_assets] on a hierarchy it has fuel for. *)
Lemma _recursive_get_preorder (r : R) (fuel : nat) :
  forall (folder : string) (forest : list tree) (asset_list : list asset),
    mirrors r folder forest ->
    height forest < fuel ->
    res (_recursive_get fuel folder asset_list r)
    = Ok (asset_list ++ flat_map preorder forest).
Proof.
  induction fuel as [|fuel IH]; intros folder forest asset_list Hm Hh; [lia|].
  destruct Hm as [folder forest Hlist Heach].
  rewrite (_recursive_get_run _ _ _ _ _ Hlist).
  assert (Hle : height forest <= fuel) by lia. clear Hh Hlist.
  revert asset_list.
  induction Heach as [|a children rest Hf Hm Hrest IHrest
                      |a rest Hf Hrest IHrest]; intros asset_list.
  - cbn. now rewrite app_nil_r.
  - apply height_cons in Hle as [Hc Hr].
    cbn [map root foldM flat_map preorder]. rewrite Hf.
    rewrite (bind_run_Ok _ _ _ _ (IH (name a) children (asset_list ++ [a]) Hm Hc)).
    cbn [res].
    rewrite (proj1 (read_only__recursive_get fuel (name a) (asset_list ++ [a]) r)).
    rewrite (IHrest Hr). f_equal.
    rewrite <- !app_assoc. reflexivity.
  - apply height_cons in Hle as [_ Hr].
    cbn [map root foldM flat_map preorder]. rewrite Hf.
    unfold bind at 1, ret at 1. cbn [res remote].
    rewrite (IHrest Hr). f_equal.
    rewrite <- !app_assoc. reflexivity.
Qed.

Lemma preorder_of_member (t : tree) (forest : list tree) :
  In t forest ->
  exists l1 l2, flat_map preorder forest = l1 ++ preorder t ++ l2.
Proof.
  intros H. apply in_split in H as (f1 & f2 & ->).
  exists (flat_map preorder f1), (flat_map preorder f2).
  rewrite flat_map_app. reflexivity.
Qed.

Lemma preorder_of_inside (t : tree) (forest : list tree) :
  inside t forest ->
  exists l1 l2, flat_map preorder forest = l1 ++ preorder t ++ l2.
Proof.
  induction 1 as [forest Hin | a children forest Hin _ (m1 & m2 & IH)].
  - now apply preorder_of_member.
  - destruct (preorder_of_member _ _ Hin) as (l1 & l2 & E).
    cbn [preorder] in E. rewrite IH in E.
    exists (l1 ++ a :: m1), (m2 ++ l2). rewrite E.
    rewrite <- !app_assoc. cbn [app]. rewrite <- !app_assoc. reflexivity.
Qed.

Lemma preorder_starts_with_root (t : tree) :
  exists l, preorder t = root t :: l.
Proof. destruct t as [a children]. now exists (flat_map preorder children). Qed.

Lemma siblings_in_order (x y : tree) (f1 f2 f3 : list tree) :
  before (root x) (root y) (flat_map preorder (f1 ++ x :: f2 ++ y :: f3)).
Proof.
  destruct (preorder_starts_with_root x) as (lx & Ex).
  destruct (preorder_starts_with_root y) as (ly & Ey).
  exists (flat_map preorder f1), (lx ++ flat_map preorder f2),
         (ly ++ flat_map preorder f3).
  rewrite flat_map_app. cbn [flat_map]. rewrite flat_map_app. cbn [flat_map].
  rewrite Ex, Ey. cbn [app]. rewrite <- !app_assoc. reflexivity.
Qed.

Lemma before_inside {A} (x y : A) (l l1 l2 : list A) :
  before x y l -> before x y (l1 ++ l ++ l2).
Proof.
  intros (m1 & m2 & m3 & ->). exists (l1 ++ m1), m2, (m3 ++ l2).
  rewrite <- !app_assoc. cbn [app]. rewrite <- !app_assoc. reflexivity.
Qed.

(** C8. On a folder whose hierarchy is [forest], and with fuel for its
    height, [get_assets] returns the records of [forest] depth first,
    without changing the remote state: every record is listed before the
    records of its children, and the records that one listing call
    returned are listed in the order of that call.  On a folder whose
    listing is empty it returns the empty list. *)
Theorem get_assets_discovery_order (fuel : nat) (folder : str_or_path)
    (forest : list tree) (r : R) :
  mirrors r (to_str folder) forest ->
  height forest < fuel ->
  let o := get_assets fuel folder r in
  let out := flat_map preorder forest in
  res o = Ok out /\
  remote o = r /\
  (listAssets (to_str folder) r = inr [] -> res o = Ok []) /\
  (forall a children c,
     inside (Node a children) forest -> In c children ->
     before a (root c) out) /\
  (forall x y f1 f2 f3,
     forest = f1 ++ x :: f2 ++ y :: f3 -> before (root x) (root y) out) /\
  (forall a children x y c1 c2 c3,
     inside (Node a children) forest ->
     children = c1 ++ x :: c2 ++ y :: c3 ->
     before (root x) (root y) out).
Proof.
  intros Hm Hh. cbv zeta.
  assert (Hres : res (get_assets fuel folder r) = Ok (flat_map preorder forest)).
  { unfold get_assets.
    now rewrite (_recursive_get_preorder r fuel (to_str folder) forest [] Hm Hh). }
  split; [exact Hres|].
  split; [apply (read_only_get_assets fuel folder r)|].
  split; [|split; [|split]].
  - intros Hempty. rewrite Hres. destruct Hm as [folder' forest Hlist _].
    rewrite Hlist in Hempty. injection Hempty as Hempty.
    apply map_eq_nil in Hempty. now subst forest.
  - intros a children c Hin Hc.
    destruct (preorder_of_inside _ _ Hin) as (l1 & l2 & E). rewrite E.
    apply before_inside. cbn [preorder].
    destruct (preorder_of_member _ _ Hc) as (m1 & m2 & Ec). rewrite Ec.
    destruct (preorder_starts_with_root c) as (lc & Elc). rewrite Elc.
    exists [], m1, (lc ++ m2). reflexivity.
  - intros x y f1 f2 f3 ->. apply siblings_in_order.
  - intros a children x y c1 c2 c3 Hin ->.
    destruct (preorder_of_inside _ _ Hin) as (l1 & l2 & E). rewrite E.
    apply before_inside. cbn [preorder].
    destruct (siblings_in_order x y c1 c2 c3) as (m1 & m2 & m3 & Es).
    rewrite Es. exists (a :: m1), m2, m3. reflexivity.
Qed.

(** *** [delete_assets]: the order *)

Lemma setdefault_append_perm (k : nat) (a : asset) (d : list (nat * list asset)) :
  Permutation (flat_map snd (setdefault_append k a d)) (flat_map snd d ++ [a]).
Proof.
  induction d as [|[k' l] d IH]; cbn [setdefault_append flat_map snd].
  - reflexivity.
  - destruct (Nat.eqb k' k); cbn [flat_map snd].
    + rewrite <- !app_assoc. apply Permutation_app_head.
      apply Permutation_app_comm.
    + rewrite <- app_assoc. now apply Permutation_app_head.
Qed.

Lemma setdefault_append_by_level (a : asset) (d : list (nat * list asset)) :
  by_level d -> by_level (setdefault_append (lvl a) a d).
Proof.
  unfold by_level. induction 1 as [|[k' l] d Hl Hd IH]; cbn [setdefault_append].
  - repeat constructor.
  - destruct (Nat.eqb k' (lvl a)) eqn:E.
    + apply Nat.eqb_eq in E. constructor; [|assumption].
      cbn [fst snd] in *. apply Forall_app. split; [exact Hl|].
      repeat constructor. now symmetry.
    + constructor; assumption.
Qed.

Lemma grouping_spec (listing : list asset) (d : list (nat * list asset)) :
  by_level d ->
  let d' := fold_left (fun d asset => setdefault_append (lvl asset) asset d)
                      listing d in
  by_level d' /\ Permutation (flat_map snd d') (flat_map snd d ++ listing).
Proof.
  revert d. induction listing as [|a listing IH]; intros d Hd; cbn [fold_left].
  - split; [exact Hd | now rewrite app_nil_r].
  - destruct (IH _ (setdefault_append_by_level a d Hd)) as [H1 H2].
    split; [exact H1|]. cbv zeta in H2. rewrite H2.
    rewrite (setdefault_append_perm (lvl a) a d).
    rewrite <- app_assoc. reflexivity.
Qed.

Lemma insert_reverse_perm (x : nat * list asset) (d : list (nat * list asset)) :
  Permutation (insert_reverse x d) (x :: d).
Proof.
  induction d as [|y d IH]; cbn [insert_reverse]; [reflexivity|].
  destruct (Nat.leb (fst y) (fst x)); [reflexivity|].
  rewrite IH. apply perm_swap.
Qed.

Lemma sorted_reverse_perm (d : list (nat * list asset)) :
  Permutation (sorted_reverse d) d.
Proof.
  unfold sorted_reverse. induction d as [|x d IH]; cbn [fold_right].
  - reflexivity.
  - rewrite insert_reverse_perm. now constructor.
Qed.

Lemma insert_reverse_sorted (x : nat * list asset) (d : list (nat * list asset)) :
  keys_decrease d -> keys_decrease (insert_reverse x d).
Proof.
  unfold keys_decrease. induction 1 as [|y d Hd IH Hy]; cbn [insert_reverse].
  - repeat constructor.
  - destruct (Nat.leb (fst y) (fst x)) eqn:E.
    + apply Nat.leb_le in E. constructor; [now constructor|].
      constructor; [exact E|].
      rewrite Forall_forall in Hy |- *. intros z Hz. specialize (Hy z Hz). lia.
    + apply Nat.leb_gt in E. constructor; [exact IH|].
      rewrite Forall_forall in Hy |- *. intros z Hz.
      apply (Permutation_in _ (insert_reverse_perm x d)) in Hz.
      destruct Hz as [<-|Hz]; [lia | now apply Hy].
Qed.

Lemma sorted_reverse_sorted (d : list (nat * list asset)) :
  keys_decrease (sorted_reverse d).
Proof.
  unfold sorted_reverse. induction d as [|x d IH]; cbn [fold_right].
  - constructor.
  - now apply insert_reverse_sorted.
Qed.

Lemma StronglySorted_app {A} (le : A -> A -> Prop) (l1 l2 : list A) :
  StronglySorted le l1 -> StronglySorted le l2 ->
  (forall x y, In x l1 -> In y l2 -> le x y) ->
  StronglySorted le (l1 ++ l2).
Proof.
  intros H1 H2 H. induction H1 as [|x l1 Hs IH Hx]; cbn [app]; [exact H2|].
  constructor.
  - apply IH. intros; apply H; [now right | assumption].
  - apply Forall_app. split; [exact Hx|].
    apply Forall_forall. intros y Hy. apply H; [now left | assumption].
Qed.

Lemma StronglySorted_map {A B} (f : A -> B) (le : B -> B -> Prop) (l : list A) :
  StronglySorted (fun x y => le (f x) (f y)) l -> StronglySorted le (map f l).
Proof.
  induction 1 as [|x l _ IH Hx]; cbn [map]; constructor; [exact IH|].
  apply Forall_map. exact Hx.
Qed.

Lemma same_level_sorted (k : nat) (l : list asset) :
  Forall (fun a => lvl a = k) l -> deepest_first lvl l.
Proof.
  unfold deepest_first. induction 1 as [|a l Ha Hl IH]; constructor; [exact IH|].
  apply Forall_forall. intros b Hb. rewrite Forall_forall in Hl.
  rewrite Ha, (Hl b Hb). constructor.
Qed.

(** Items by decreasing level, laid end to end, are deepest first. *)
Lemma levels_deepest_first (d : list (nat * list asset)) :
  keys_decrease d -> by_level d -> deepest_first lvl (flat_map snd d).
Proof.
  unfold keys_decrease, by_level, deepest_first.
  induction 1 as [|[k l] d Hd IH Hk]; intros Hlv; cbn [flat_map snd].
  - constructor.
  - inversion Hlv as [|? ? Hl Hrest]; subst. cbn [fst snd] in *.
    apply StronglySorted_app.
    + now apply (same_level_sorted k).
    + now apply IH.
    + intros x y Hx Hy. apply in_flat_map in Hy as ([k' l'] & Hin & Hy').
      rewrite Forall_forall in Hl, Hk, Hrest.
      rewrite (Hl x Hx). specialize (Hk _ Hin). specialize (Hrest _ Hin).
      cbn [fst snd] in *. rewrite Forall_forall in Hrest.
      rewrite (Hrest y Hy'). exact Hk.
Qed.

Lemma delete_dry_run (output : list string) (x : string) (r : R) :
  delete true output x r
  = {| res := Ok (output ++ [x]); remote := r; trace := [] |}.
Proof. reflexivity. Qed.

Lemma delete_each_dry_run (l : list asset) :
  forall (output : list string) (r : R),
    foldM (fun output i => delete true output (name i)) l output r
    = {| res := Ok (output ++ map name l); remote := r; trace := [] |}.
Proof.
  induction l as [|a l IH]; intros output r; cbn [foldM map].
  - unfold ret. now rewrite app_nil_r.
  - rewrite (bind_run_Ok _ _ _ (output ++ [name a])) by reflexivity.
    rewrite delete_dry_run. cbn [remote trace]. rewrite IH. cbn [res remote trace app].
    now rewrite <- app_assoc.
Qed.

Lemma delete_levels_dry_run (d : list (nat * list asset)) :
  forall (output : list string) (r : R),
    foldM (fun output item =>
             foldM (fun output i => delete true output (name i))
                   (snd item) output)
          d output r
    = {| res := Ok (output ++ map name (flat_map snd d)); remote := r;
         trace := [] |}.
Proof.
  induction d as [|item d IH]; intros output r; cbn [foldM flat_map].
  - unfold ret. cbn [map]. now rewrite app_nil_r.
  - rewrite (bind_run_Ok _ _ _ (output ++ map name (snd item)))
      by now rewrite delete_each_dry_run.
    rewrite delete_each_dry_run. cbn [remote trace]. rewrite IH.
    cbn [res remote trace app]. now rewrite map_app, <- app_assoc.
Qed.

(** C1, as the code has it.  For a folder whose recursive listing is
    [listing], [delete_assets] in dry-run mode returns a list with one
    entry per listed asset and one more: the names of the listed assets,
    ordered so that no entry is followed by one whose asset id has more
    segments, and then the input path.  When the name of every listed
    asset is its id, the list is that of the ids, deepest first, followed
    by the input path. *)
Theorem delete_assets_dry_run_deepest_first (fuel : nat)
    (asset_id : str_or_path) (r : R) (info : asset) (listing : list asset) :
  getAsset (to_str asset_id) r = inr info ->
  type info = "FOLDER" ->
  res (get_assets fuel (inl (to_str asset_id)) r) = Ok listing ->
  exists out,
    res (delete_assets fuel asset_id true r) = Ok out /\
    length out = S (length listing) /\
    names_deepest_first listing (to_str asset_id) out /\
    ((forall a, In a listing -> name a = id a) ->
     ids_deepest_first listing (to_str asset_id) out).
Proof.
  intros Hinfo Hty Hlist.
  set (groups := sorted_reverse
                   (fold_left (fun d asset => setdefault_append (lvl asset) asset d)
                              listing [])).
  destruct (grouping_spec listing [] (Forall_nil _)) as [Hlv Hperm].
  cbv zeta in Hlv, Hperm. cbn [flat_map app] in Hperm.
  assert (Hperm' : Permutation (flat_map snd groups) listing).
  { unfold groups. apply (Permutation_trans (l' := flat_map snd
        (fold_left (fun d asset => setdefault_append (lvl asset) asset d)
                   listing []))); [|exact Hperm].
    apply Permutation_flat_map, sorted_reverse_perm. }
  assert (Hsorted : deepest_first lvl (flat_map snd groups)).
  { apply levels_deepest_first; [apply sorted_reverse_sorted|].
    unfold by_level.
    apply (Permutation_Forall (Permutation_sym (sorted_reverse_perm _))).
    exact Hlv. }
  exists (map name (flat_map snd groups) ++ [to_str asset_id]).
  split; [|split; [|split]].
  - unfold delete_assets.
    rewrite (bind_run_Ok _ _ _ info)
      by (unfold query; cbn [res]; now rewrite Hinfo).
    cbn [res]. unfold query at 1. cbn [remote].
    rewrite Hty. cbn [String.eqb Ascii.eqb Bool.eqb].
    rewrite (bind_run_Ok _ _ _ (map name (flat_map snd groups))).
    + now rewrite delete_dry_run.
    + rewrite (bind_run_Ok _ _ _ listing Hlist). cbn [res].
      now rewrite delete_levels_dry_run.
  - rewrite length_app, length_map, (Permutation_length Hperm'). cbn. lia.
  - exists (flat_map snd groups). auto.
  - intros Hsame. exists (map id (flat_map snd groups)).
    split; [|split].
    + f_equal. apply map_ext_in. intros a Ha. apply Hsame.
      now apply (Permutation_in _ Hperm').
    + now apply Permutation_map.
    + unfold deepest_first, segments. apply StronglySorted_map. exact Hsorted.
Qed.

End Properties.

(* ================================================================== *)
(** ** Further properties *)

Section Further.
Context {R : Type} {ee : EE R}.

(** *** [get_task] and [wait] *)

Lemma find_first_match (description : string) (before after : list Task)
    (t : Task) :
  Forall (fun t' => config_description t' <> description) before ->
  config_description t = description ->
  find (fun t' => config_description t' =? description) (before ++ t :: after)
  = Some t.
Proof.
  intros Hb Ht. induction Hb as [|t' before Hne _ IH]; cbn [app find].
  - now rewrite (proj2 (String.eqb_eq _ _) Ht).
  - now rewrite (proj2 (String.eqb_neq _ _) Hne).
Qed.

(** X1. [get_task] makes one call, the listing of the tasks, and leaves the
    remote state as it was.  When the listing raises, so does [get_task].
    Otherwise it returns the first task of the listing that carries the
    description, whatever follows it in the listing, and [None] exactly
    when no task of the listing carries the description. *)
Theorem get_task_first_match (description : string) (r : R) :
  let o := get_task description r in
  trace o = [TaskList] /\ remote o = r /\
  (forall e, Task_list r = inl e -> res o = Raise e) /\
  (forall before t after,
     Task_list r = inr (before ++ t :: after) ->
     Forall (fun t' => config_description t' <> description) before ->
     config_description t = description ->
     res o = Ok (Some t)) /\
  (forall tasks,
     Task_list r = inr tasks ->
     (res o = Ok None <->
      Forall (fun t => config_description t <> description) tasks)).
Proof.
  cbv zeta. unfold get_task, bind, query, ret. cbn [res remote trace].
  destruct (Task_list r) as [e|tasks] eqn:Hlist; cbn [reply res remote trace app].
  - repeat split; try discriminate. intros e' H. now inversion H.
  - split; [reflexivity|]. split; [reflexivity|]. split; [discriminate|]. split.
    + intros before t after H Hb Ht. inversion H; subst tasks.
      now rewrite (find_first_match description before after t Hb Ht).
    + intros tasks' H. inversion H; subst tasks'. split.
      * intros Hnone. inversion Hnone as [Hfind].
        apply Forall_forall. intros t Hin Heq.
        apply (find_none _ _ Hfind) in Hin.
        apply String.eqb_neq in Hin. contradiction.
      * intros Hall.
        destruct (find (fun t => config_description t =? description) tasks)
          as [t|] eqn:Hfind; [|reflexivity].
        apply find_some in Hfind as [Hin Heq]. apply String.eqb_eq in Heq.
        rewrite Forall_forall in Hall. now destruct (Hall t Hin).
Qed.

(** X2. Given a description, [wait] looks the task up once, after its
    initial delay and in the state reached by it, and then does what it
    does on the first task of that listing carrying the description: same
    result, same final state, and the same calls but for the lookup
    between the initial delay and the polls. *)
Theorem wait_by_description (fuel : nat) (description : string) (timeout : Z)
    (r : R) (before after : list Task) (t : Task) :
  Task_list (time_sleep 5 r) = inr (before ++ t :: after) ->
  Forall (fun t' => config_description t' <> description) before ->
  config_description t = description ->
  let by_name := wait fuel (inr description) timeout r in
  let by_task := wait fuel (inl t) timeout r in
  res by_name = res by_task /\
  remote by_name = remote by_task /\
  exists polls,
    trace by_task = Sleep 5 :: polls /\
    trace by_name = Sleep 5 :: TaskList :: polls.
Proof.
  intros Hlist Hb Ht. cbv zeta. rewrite !wait_run. cbv zeta.
  rewrite Hlist, (find_first_match description before after t Hb Ht).
  cbn [res remote trace]. split; [reflexivity|]. split; [reflexivity|].
  eexists. split; reflexivity.
Qed.

Lemma status_calls_app (t1 t2 : list call) :
  status_calls (t1 ++ t2) = status_calls t1 + status_calls t2.
Proof.
  induction t1 as [|c t1 IH]; cbn [app status_calls]; [reflexivity|].
  destruct c; cbn; now rewrite ?IH.
Qed.

(** What the loop of [wait] leaves behind, whatever the fuel, the timeout
    and the outcome. *)
Lemma wait_loop_shape (task : Task) (timeout start : Z) (fuel : nat) :
  forall (state : string) (r : R),
    let o := wait_loop fuel task timeout start state r in
    remote o = Nat.iter (status_calls (trace o)) (time_sleep 5) r /\
    (forall s, res o = Ok s ->
       (polled (trace o) = [] /\ s = state) \/
       exists earlier, polled (trace o) = earlier ++ [s]).
Proof.
  induction fuel as [|fuel IH]; intros state r; cbv zeta.
  - split; [reflexivity | discriminate].
  - rewrite wait_loop_step.
    destruct (negb (state =? "COMPLETED") && (time_time r - start <? timeout)%Z).
    2:{ split; [reflexivity|]. intros s H. inversion H. auto. }
    cbv zeta. destruct (Task_status task (time_sleep 5 r)) as [e|s'] eqn:Hst.
    + split; [reflexivity | discriminate].
    + destruct (s' =? "FAILED").
      * split; [reflexivity|]. intros s H. inversion H. right. now exists [].
      * destruct (IH s' (time_sleep 5 r)) as [Hrem Hres].
        cbn [res remote trace status_calls polled]. split.
        -- rewrite Hrem. symmetry. apply Nat.iter_succ_r.
        -- intros s H. right.
           destruct (Hres s H) as [[Hp ->] | (earlier & Hp)]; rewrite Hp.
           ++ now exists [].
           ++ now exists (s' :: earlier).
Qed.

(** X3. Whatever the task or description, the timeout, the fuel and the
    outcome, [wait] creates, starts and deletes nothing, and the state it
    leaves is the one it was given after one sleep of 5 seconds for its
    initial delay and one more for every status call it made: the remote
    state changes by the passing of time only. *)
Theorem wait_only_lets_time_pass (fuel : nat) (task : Task + string)
    (timeout : Z) (r : R) :
  let o := wait fuel task timeout r in
  mutations (trace o) = [] /\
  remote o = Nat.iter (S (status_calls (trace o))) (time_sleep 5) r.
Proof.
  cbv zeta. split; [apply harmless_mutations, wait_harmless|].
  rewrite wait_run. cbv zeta.
  assert (H : forall t,
    remote (wait_loop fuel t timeout (time_time (time_sleep 5 r))
                      "UNSUBMITTED" (time_sleep 5 r))
    = Nat.iter (S (status_calls
                     (trace (wait_loop fuel t timeout
                               (time_time (time_sleep 5 r)) "UNSUBMITTED"
                               (time_sleep 5 r)))))
               (time_sleep 5) r).
  { intros t. rewrite Nat.iter_succ_r. apply wait_loop_shape. }
  destruct task as [t|d]; cbn [remote trace status_calls]; [apply H|].
  destruct (Task_list (time_sleep 5 r)) as [e|tasks];
    cbn [remote trace status_calls]; [reflexivity|].
  destruct (find _ tasks) as [t|]; cbn [remote trace status_calls];
    [apply H | reflexivity].
Qed.

(** X4. When [wait] returns a state, either it made no successful poll and
    the state is "UNSUBMITTED", the state it starts from, or the state is
    the one its last successful poll observed.  This needs no assumption
    on the timeout, the fuel or the clock. *)
Theorem wait_returns_last_poll (fuel : nat) (task : Task + string)
    (timeout : Z) (r : R) (state : string) :
  res (wait fuel task timeout r) = Ok state ->
  (polled (trace (wait fuel task timeout r)) = [] /\ state = "UNSUBMITTED") \/
  exists earlier, polled (trace (wait fuel task timeout r)) = earlier ++ [state].
Proof.
  rewrite wait_run. cbv zeta.
  destruct task as [t|d]; cbn [res trace polled].
  - apply wait_loop_shape.
  - destruct (Task_list (time_sleep 5 r)) as [e|tasks]; cbn [res trace polled];
      [discriminate|].
    destruct (find _ tasks) as [t|]; cbn [res trace polled]; [|discriminate].
    apply wait_loop_shape.
Qed.

(** The number of polls of the loop, on a clock on which sleeping takes
    time: before each poll the timeout had not elapsed. *)
Lemma wait_loop_poll_bound (task : Task) (timeout start : Z) :
  sleep_takes_time ->
  forall (fuel : nat) (state : string) (r : R),
    let n := status_calls (trace (wait_loop fuel task timeout start state r)) in
    n = 0 \/ (time_time r - start + 5 * (Z.of_nat n - 1) < timeout)%Z.
Proof.
  intros Hclock. induction fuel as [|fuel IH]; intros state r; cbv zeta.
  - left. reflexivity.
  - rewrite wait_loop_step.
    destruct (negb (state =? "COMPLETED")); cbn [andb]; [|left; reflexivity].
    destruct (time_time r - start <? timeout)%Z eqn:Ht; [|left; reflexivity].
    apply Z.ltb_lt in Ht. cbv zeta. pose proof (Hclock 5%Z r) as Hs.
    destruct (Task_status task (time_sleep 5 r)) as [e|s'].
    + right. cbn [trace status_calls]. lia.
    + destruct (s' =? "FAILED").
      * right. cbn [trace status_calls]. lia.
      * right. cbn [trace status_calls].
        destruct (IH s' (time_sleep 5 r)) as [H0|Hn]; [rewrite H0; lia | lia].
Qed.

Lemma wait_status_calls_bound (fuel : nat) (task : Task + string)
    (timeout : Z) (r : R) :
  sleep_takes_time ->
  let n := status_calls (trace (wait fuel task timeout r)) in
  n = 0 \/ (5 * (Z.of_nat n - 1) < timeout)%Z.
Proof.
  intros Hclock. cbv zeta. rewrite wait_run. cbv zeta.
  assert (Hloop : forall t,
    let n := status_calls
               (trace (wait_loop fuel t timeout (time_time (time_sleep 5 r))
                                 "UNSUBMITTED" (time_sleep 5 r))) in
    n = 0 \/ (5 * (Z.of_nat n - 1) < timeout)%Z).
  { intros t. cbv zeta.
    destruct (wait_loop_poll_bound t timeout (time_time (time_sleep 5 r))
                Hclock fuel "UNSUBMITTED" (time_sleep 5 r)) as [H0|Hn];
      [left; exact H0 | right; lia]. }
  destruct task as [t|d]; cbn [trace status_calls]; [apply Hloop|].
  destruct (Task_list (time_sleep 5 r)) as [e|tasks];
    cbn [trace status_calls]; [left; reflexivity|].
  destruct (find _ tasks) as [t|]; cbn [trace status_calls];
    [apply Hloop | left; reflexivity].
Qed.

(** X5. On a clock on which sleeping takes at least the time asked for,
    [wait] polls at most once per 5 seconds of timeout, rounded up: with
    [n] status calls made, [n = 0] or [5 * (n - 1) < timeout].  A timeout
    that is not positive gives no poll at all. *)
Theorem wait_poll_bound (fuel : nat) (task : Task + string) (timeout : Z)
    (r : R) :
  sleep_takes_time ->
  let n := status_calls (trace (wait fuel task timeout r)) in
  (n = 0 \/ (5 * (Z.of_nat n - 1) < timeout)%Z) /\
  ((timeout <= 0)%Z -> n = 0).
Proof.
  intros Hclock. cbv zeta.
  pose proof (wait_status_calls_bound fuel task timeout r Hclock) as H.
  cbv zeta in H. split; [exact H|].
  intros Hle. destruct H as [H|H]; [exact H | lia].
Qed.

(** *** [get_assets]: the calls *)

Lemma _recursive_get_step (fuel : nat) (folder : string)
    (asset_list : list asset) (r : R) :
  _recursive_get (S fuel) folder asset_list r =
  match listAssets folder r with
  | inl e => {| res := Raise e; remote := r; trace := [ListAssets folder] |}
  | inr assets =>
      let o := foldM (fun asset_list asset =>
                        let asset_list := asset_list ++ [asset] in
                        if is_folder asset
                        then _recursive_get fuel (name asset) asset_list
                        else ret asset_list)
                     assets asset_list r in
      {| res := res o; remote := remote o;
         trace := ListAssets folder :: trace o |}
  end.
Proof.
  cbn [_recursive_get]. unfold bind at 1, query at 1. cbn [res remote trace].
  destruct (listAssets folder r); reflexivity.
Qed.

Lemma folder_listings_app (l1 l2 : list asset) :
  folder_listings (l1 ++ l2) = folder_listings l1 ++ folder_listings l2.
Proof. unfold folder_listings. now rewrite filter_app, map_app. Qed.

(** The calls of the recursion of [get_assets], by its outcome. *)
Lemma _recursive_get_calls (r : R) (fuel : nat) :
  forall (folder : string) (asset_list : list asset),
    let o := _recursive_get fuel folder asset_list r in
    (forall out, res o = Ok out ->
       exists new, out = asset_list ++ new /\
                   trace o = ListAssets folder :: folder_listings new) /\
    (forall e, res o = Raise e ->
       exists tr f, trace o = tr ++ [ListAssets f] /\ listAssets f r = inl e).
Proof.
  induction fuel as [|fuel IH]; intros folder asset_list; cbv zeta.
  - split; discriminate.
  - rewrite _recursive_get_step.
    destruct (listAssets folder r) as [e|assets] eqn:Hlist.
    + split; [discriminate|]. intros e' H. inversion H; subst e'.
      now exists [], folder.
    + cbv zeta. cbn [res trace].
      set (body := fun asset_list asset =>
                     let asset_list := asset_list ++ [asset] in
                     if is_folder asset
                     then _recursive_get fuel (name asset) asset_list
                     else ret asset_list).
      assert (Q : forall acc,
        (forall out, res (foldM body assets acc r) = Ok out ->
           exists new, out = acc ++ new /\
                       trace (foldM body assets acc r) = folder_listings new) /\
        (forall e, res (foldM body assets acc r) = Raise e ->
           exists tr f, trace (foldM body assets acc r) = tr ++ [ListAssets f]
                        /\ listAssets f r = inl e)).
      { clear Hlist. induction assets as [|a rest IHrest]; intros acc.
        - split; [|discriminate]. intros out H. inversion H.
          exists []. now rewrite app_nil_r.
        - cbn [foldM]. unfold bind.
          assert (Hro : remote (body acc a r) = r).
          { unfold body. cbv zeta. destruct (is_folder a); [|reflexivity].
            apply read_only__recursive_get. }
          destruct (res (body acc a r)) as [mid| |] eqn:Hbody;
            cbn [res trace]; rewrite ?Hro.
          + destruct (IHrest mid) as [HOk HRaise].
            assert (Hmid : exists new1,
                      mid = acc ++ a :: new1 /\
                      trace (body acc a r) = folder_listings (a :: new1)).
            { unfold body in Hbody |- *. cbv zeta in Hbody |- *.
              unfold folder_listings. cbn [filter].
              destruct (is_folder a).
              - destruct (proj1 (IH (name a) (acc ++ [a])) mid Hbody)
                  as (new1 & E & Et).
                exists new1. rewrite <- app_assoc in E. cbn [app] in E.
                split; [exact E|]. rewrite Et. reflexivity.
              - inversion Hbody. exists []. split; [|reflexivity].
                reflexivity. }
            destruct Hmid as (new1 & Emid & Etr). split.
            * intros out H. destruct (HOk out H) as (new2 & E & Et).
              exists (a :: new1 ++ new2). split.
              -- rewrite E, Emid, <- app_assoc. reflexivity.
              -- rewrite Etr, Et.
                 change (a :: new1 ++ new2) with ((a :: new1) ++ new2).
                 now rewrite folder_listings_app.
            * intros e H. destruct (HRaise e H) as (tr & f & Et & Hf).
              exists (trace (body acc a r) ++ tr), f.
              rewrite Et, app_assoc. auto.
          + split; [discriminate|]. intros e' H. inversion H; subst e'.
            unfold body in Hbody |- *. cbv zeta in Hbody |- *.
            destruct (is_folder a); [|discriminate].
            exact (proj2 (IH (name a) (acc ++ [a])) e Hbody).
          + split; discriminate. }
      destruct (Q asset_list) as [HOk HRaise]. split.
      * intros out H. destruct (HOk out H) as (new & E & Et).
        exists new. now rewrite Et.
      * intros e H. destruct (HRaise e H) as (tr & f & Et & Hf).
        exists (ListAssets folder :: tr), f. now rewrite Et.
Qed.

(** X6. Whatever the remote state, [get_assets] only lists: it leaves the
    state as it was.  When it returns, the calls it made are the listing of
    the input folder and then one listing per asset of type FOLDER of the
    list returned, by name and in the order of that list: an asset of any
    other type is never listed, whatever it contains.  When it raises, its
    last call is a listing that raised this error. *)
Theorem get_assets_lists_folders_only (fuel : nat) (folder : str_or_path)
    (r : R) :
  let o := get_assets fuel folder r in
  remote o = r /\
  (forall out, res o = Ok out ->
     trace o = ListAssets (to_str folder) :: folder_listings out) /\
  (forall e, res o = Raise e ->
     exists tr f, trace o = tr ++ [ListAssets f] /\ listAssets f r = inl e).
Proof.
  cbv zeta. split; [apply (read_only_get_assets fuel folder r)|].
  unfold get_assets.
  destruct (_recursive_get_calls r fuel (to_str folder) []) as [HOk HRaise].
  split; [|exact HRaise].
  intros out H. destruct (HOk out H) as (new & E & Et).
  cbn [app] in E. now subst new.
Qed.

(** *** [delete_assets]: a dry run and the run it announces *)

Lemma initial_segment_app_head {A} (h p l : list A) :
  initial_segment p l -> initial_segment (h ++ p) (h ++ l).
Proof. intros (rest & ->). exists rest. now rewrite app_assoc. Qed.

Lemma initial_segment_app_r {A} (p l l' : list A) :
  initial_segment p l -> initial_segment p (l ++ l').
Proof. intros (rest & ->). exists (rest ++ l'). now rewrite app_assoc. Qed.

Lemma initial_segment_refl {A} (l : list A) : initial_segment l l.
Proof. exists []. now rewrite app_nil_r. Qed.

Lemma deletes_in_order_ret (output : list string) :
  deletes_in_order (@ret R _ output) output [].
Proof.
  intros r. split; [discriminate|]. split; [apply initial_segment_refl|].
  intros out H. inversion H. now rewrite app_nil_r.
Qed.

Lemma deletes_in_order_delete (output : list string) (x : string) :
  deletes_in_order (delete false output x) output [x].
Proof.
  intros r. unfold in_order, delete, bind, command, ret. cbn [res remote trace].
  destruct (fst (deleteAsset x r)); cbn [reply res trace deleted app].
  - split; [discriminate|]. split; [apply initial_segment_refl | discriminate].
  - split; [discriminate|]. split; [apply initial_segment_refl|].
    intros out H. inversion H. auto.
Qed.

Lemma in_order_bind (m : M R (list string))
    (f : list string -> M R (list string)) (output ids1 ids2 : list string)
    (r : R) :
  in_order (m r) output ids1 ->
  (forall a, deletes_in_order (f a) a ids2) ->
  in_order (bind m f r) output (ids1 ++ ids2).
Proof.
  intros (Hfuel & Hpre & HOk) Hf. unfold in_order, bind.
  destruct (res (m r)) as [a| |] eqn:Hres; cbn [res trace].
  - destruct (HOk a eq_refl) as [Ea Ed].
    destruct (Hf a (remote (m r))) as (Hfuel' & Hpre' & HOk').
    split; [exact Hfuel'|]. rewrite deleted_app, Ed. split.
    + now apply initial_segment_app_head.
    + intros out H. destruct (HOk' out H) as [Eo Ed'].
      rewrite Ed', Eo, Ea, app_assoc. auto.
  - split; [discriminate|]. split; [now apply initial_segment_app_r | discriminate].
  - contradiction.
Qed.

Lemma deletes_in_order_foldM {A} (f : list string -> A -> M R (list string))
    (g : A -> list string) (l : list A) :
  (forall acc x, deletes_in_order (f acc x) acc (g x)) ->
  forall acc, deletes_in_order (foldM f l acc) acc (flat_map g l).
Proof.
  intros Hf. induction l as [|x l IH]; intros acc; cbn [foldM flat_map].
  - apply deletes_in_order_ret.
  - intros r. apply in_order_bind; [apply Hf | exact IH].
Qed.

Lemma in_order_after_query {A} (m : M R A) (f : A -> M R (list string))
    (output ids : list string) (r : R) (a : A) :
  res (m r) = Ok a ->
  harmless (trace (m r)) ->
  in_order (f a (remote (m r))) output ids ->
  in_order (bind m f r) output ids.
Proof.
  intros Hres Hh H. rewrite (bind_run_Ok _ _ _ _ Hres).
  unfold in_order in *. cbn [res trace].
  now rewrite deleted_app, (harmless_deleted _ Hh).
Qed.

Lemma names_of_levels (d : list (nat * list asset)) :
  flat_map (fun item => flat_map (fun i => [name i]) (snd item)) d
  = map name (flat_map snd d).
Proof.
  induction d as [|item d IH]; cbn [flat_map map]; [reflexivity|].
  rewrite map_app, IH. f_equal.
Qed.

Lemma delete_assets_dry_run_result (fuel : nat) (asset_id : str_or_path)
    (r : R) (info : asset) :
  getAsset (to_str asset_id) r = inr info ->
  res (delete_assets fuel asset_id true r) =
  if type info =? "FOLDER" then
    match res (get_assets fuel (inl (to_str asset_id)) r) with
    | Ok listing => Ok (map name (deletion_order listing) ++ [to_str asset_id])
    | Raise e => Raise e
    | OutOfFuel => OutOfFuel
    end
  else Ok [to_str asset_id].
Proof.
  intros Hinfo. unfold delete_assets.
  rewrite (bind_run_Ok _ _ _ info)
    by (unfold query; cbn [res]; now rewrite Hinfo).
  cbn [res]. unfold query at 1. cbn [remote].
  destruct (type info =? "FOLDER").
  - destruct (res (get_assets fuel (inl (to_str asset_id)) r))
      as [listing| |] eqn:Hlist.
    + rewrite (bind_run_Ok _ _ _ (map name (deletion_order listing))).
      * now rewrite delete_dry_run.
      * rewrite (bind_run_Ok _ _ _ listing Hlist). cbn [res].
        now rewrite delete_levels_dry_run.
    + rewrite (bind_run_Raise _ _ _ e); [reflexivity|].
      now rewrite (bind_run_Raise _ _ _ e Hlist).
    + rewrite bind_run_OutOfFuel; [reflexivity|].
      now rewrite (bind_run_OutOfFuel _ _ _ Hlist).
  - rewrite (bind_run_Ok _ _ _ []) by reflexivity. now rewrite delete_dry_run.
Qed.

Lemma delete_assets_run_in_order (fuel : nat) (asset_id : str_or_path)
    (r : R) (info : asset) (ids : list string) :
  getAsset (to_str asset_id) r = inr info ->
  (if type info =? "FOLDER"
   then exists listing,
          res (get_assets fuel (inl (to_str asset_id)) r) = Ok listing /\
          ids = map name (deletion_order listing)
   else ids = []) ->
  in_order (delete_assets fuel asset_id false r) [] (ids ++ [to_str asset_id]).
Proof.
  intros Hinfo Hids. unfold delete_assets.
  apply (in_order_after_query _ _ _ _ _ info).
  { unfold query. cbn [res]. now rewrite Hinfo. }
  { repeat constructor. }
  unfold query at 1. cbn [remote].
  apply in_order_bind; [|intros a; apply deletes_in_order_delete].
  destruct (type info =? "FOLDER").
  - destruct Hids as (listing & Hlist & ->).
    apply (in_order_after_query _ _ _ _ _ listing Hlist).
    { apply (read_only_get_assets fuel (inl (to_str asset_id)) r). }
    unfold deletion_order. rewrite <- names_of_levels.
    apply (deletes_in_order_foldM
             (fun output item =>
                foldM (fun output i => delete false output (name i))
                      (snd item) output)
             (fun item => flat_map (fun i => [name i]) (snd item))).
    intros acc item.
    apply (deletes_in_order_foldM
             (fun output i => delete false output (name i))
             (fun i => [name i])).
    intros acc' i. apply deletes_in_order_delete.
  - subst ids. apply deletes_in_order_ret.
Qed.

(** X7. A dry run announces the real run: when [delete_assets] in dry-run
    mode returns a list, the run with [dry_run = False] from the same
    remote state terminates, the delete calls it makes are the first
    entries of that list, in the order of the list, whatever the outcome,
    and when it returns it returns that very list, having made a delete
    call for each entry. *)
Theorem delete_assets_dry_run_announces (fuel : nat) (asset_id : str_or_path)
    (r : R) (out : list string) :
  res (delete_assets fuel asset_id true r) = Ok out ->
  let run := delete_assets fuel asset_id false r in
  res run <> OutOfFuel /\
  initial_segment (deleted (trace run)) out /\
  (forall out', res run = Ok out' -> out' = out /\ deleted (trace run) = out).
Proof.
  intros Hdry. cbv zeta.
  destruct (getAsset (to_str asset_id) r) as [e|info] eqn:Hinfo.
  { exfalso. unfold delete_assets in Hdry.
    rewrite (bind_run_Raise _ _ _ e) in Hdry
      by (unfold query; cbn [res]; now rewrite Hinfo).
    discriminate. }
  rewrite (delete_assets_dry_run_result fuel asset_id r info Hinfo) in Hdry.
  change (in_order (delete_assets fuel asset_id false r) [] out).
  destruct (type info =? "FOLDER") eqn:Hty.
  - destruct (res (get_assets fuel (inl (to_str asset_id)) r))
      as [listing| |] eqn:Hlist; try discriminate.
    inversion Hdry.
    apply (delete_assets_run_in_order fuel asset_id r info _ Hinfo).
    rewrite Hty. now exists listing.
  - inversion Hdry.
    apply (delete_assets_run_in_order fuel asset_id r info [] Hinfo).
    now rewrite Hty.
Qed.

(** X8. Nothing is deleted unless the metadata of the asset is found and,
    for a folder, the whole recursive listing has succeeded: when
    [getAsset] raises, or when a listing call of [get_assets] raises,
    [delete_assets] raises that error in either mode, having made no
    delete call and left the remote state as it was. *)
Theorem delete_assets_failed_lookup (fuel : nat) (asset_id : str_or_path)
    (dry_run : bool) (r : R) (e : exn) :
  getAsset (to_str asset_id) r = inl e \/
  (exists info,
     getAsset (to_str asset_id) r = inr info /\ type info = "FOLDER" /\
     res (get_assets fuel (inl (to_str asset_id)) r) = Raise e) ->
  let o := delete_assets fuel asset_id dry_run r in
  res o = Raise e /\ deleted (trace o) = [] /\ remote o = r.
Proof.
  intros [Hinfo | (info & Hinfo & Hty & Hlist)]; cbv zeta; unfold delete_assets.
  - rewrite (bind_run_Raise _ _ _ e)
      by (unfold query; cbn [res]; now rewrite Hinfo).
    cbn. auto.
  - rewrite (bind_run_Ok _ _ _ info)
      by (unfold query; cbn [res]; now rewrite Hinfo).
    change (remote (query (GetAsset (to_str asset_id))
                          (getAsset (to_str asset_id)) r)) with r.
    change (trace (query (GetAsset (to_str asset_id))
                         (getAsset (to_str asset_id)) r))
      with [GetAsset (to_str asset_id)].
    rewrite Hty. cbn [String.eqb Ascii.eqb Bool.eqb].
    rewrite (bind_run_Raise _ _ _ e)
      by now rewrite (bind_run_Raise _ _ _ e Hlist).
    cbn [res remote trace]. rewrite (bind_run_Raise _ _ _ e Hlist).
    cbn [res remote trace app deleted].
    destruct (read_only_get_assets fuel (inl (to_str asset_id)) r) as [Hr Hh].
    split; [reflexivity|]. split; [now apply harmless_deleted | exact Hr].
Qed.

(** *** [delete_assets]: the order within a level, and children first *)

Lemma setdefault_append_keys (k k' : nat) (a : asset)
    (d : list (nat * list asset)) :
  In k' (map fst (setdefault_append k a d)) -> k' = k \/ In k' (map fst d).
Proof.
  induction d as [|[k0 l] d IH]; cbn [setdefault_append map fst].
  - intros [H|[]]. now left.
  - destruct (Nat.eqb k0 k); cbn [map fst]; intros [H|H].
    + right. now left.
    + right. now right.
    + right. now left.
    + destruct (IH H) as [E|Hin]; [now left | right; now right].
Qed.

Lemma setdefault_append_NoDup (k : nat) (a : asset)
    (d : list (nat * list asset)) :
  NoDup (map fst d) -> NoDup (map fst (setdefault_append k a d)).
Proof.
  induction d as [|[k0 l] d IH]; cbn [setdefault_append map fst]; intros Hd.
  - repeat constructor. intros [].
  - inversion Hd as [|? ? Hnot Hrest]; subst.
    destruct (Nat.eqb k0 k) eqn:E; cbn [map fst]; [now constructor|].
    apply Nat.eqb_neq in E. constructor; [|now apply IH].
    intros H. apply setdefault_append_keys in H as [H|H]; auto.
Qed.

Lemma keyed_absent (k : nat) (d : list (nat * list asset)) :
  ~ In k (map fst d) -> keyed k d = [].
Proof.
  unfold keyed. induction d as [|[k0 l] d IH]; cbn [map fst filter];
    intros H; [reflexivity|].
  destruct (Nat.eqb k0 k) eqn:E.
  - apply Nat.eqb_eq in E. exfalso. apply H. now left.
  - apply IH. intros Hin. apply H. now right.
Qed.

Lemma keyed_setdefault_append (k k' : nat) (a : asset)
    (d : list (nat * list asset)) :
  NoDup (map fst d) ->
  keyed k (setdefault_append k' a d)
  = keyed k d ++ (if Nat.eqb k' k then [a] else []).
Proof.
  induction d as [|[k0 l] d IH]; intros Hd.
  - unfold keyed. cbn [setdefault_append filter fst].
    destruct (Nat.eqb k' k); reflexivity.
  - inversion Hd as [|? ? Hnot Hrest]; subst. cbn [setdefault_append].
    destruct (Nat.eqb k0 k') eqn:E.
    + apply Nat.eqb_eq in E. subst k0. unfold keyed. cbn [filter fst].
      destruct (Nat.eqb k' k) eqn:Ek; cbn [flat_map snd].
      * apply Nat.eqb_eq in Ek. subst k'.
        fold (keyed k d). rewrite (keyed_absent k d Hnot).
        now rewrite !app_nil_r.
      * now rewrite app_nil_r.
    + unfold keyed in *. cbn [filter fst].
      destruct (Nat.eqb k0 k); cbn [flat_map snd]; rewrite (IH Hrest);
        [now rewrite app_assoc | reflexivity].
Qed.

Lemma grouping_by_level (listing : list asset) :
  forall d : list (nat * list asset),
    NoDup (map fst d) ->
    let d' := fold_left (fun d asset => setdefault_append (lvl asset) asset d)
                        listing d in
    NoDup (map fst d') /\
    forall k, keyed k d' = keyed k d ++ at_level k listing.
Proof.
  induction listing as [|a listing IH]; intros d Hd; cbn [fold_left].
  - split; [exact Hd|]. intros k. unfold at_level. cbn. now rewrite app_nil_r.
  - destruct (IH _ (setdefault_append_NoDup (lvl a) a d Hd)) as [H1 H2].
    split; [exact H1|]. intros k. cbv zeta in H2. rewrite H2.
    rewrite (keyed_setdefault_append k (lvl a) a d Hd), <- app_assoc.
    f_equal. unfold at_level. cbn [filter].
    destruct (Nat.eqb (lvl a) k); reflexivity.
Qed.

Lemma filter_Permutation {A} (f : A -> bool) (l l' : list A) :
  Permutation l l' -> Permutation (filter f l) (filter f l').
Proof.
  induction 1 as [|x l l' _ IH|x y l|l l' l'' _ IH1 _ IH2]; cbn [filter].
  - constructor.
  - destruct (f x); [now constructor | exact IH].
  - destruct (f x), (f y); try reflexivity. apply perm_swap.
  - now transitivity (filter f l').
Qed.

Lemma filter_unique_key (k : nat) (d : list (nat * list asset)) :
  NoDup (map fst d) ->
  length (filter (fun item => Nat.eqb (fst item) k) d) <= 1.
Proof.
  induction d as [|[k0 l] d IH]; cbn [map fst filter]; intros Hd; [auto|].
  inversion Hd as [|? ? Hnot Hrest]; subst.
  destruct (Nat.eqb k0 k) eqn:E; [|now apply IH].
  apply Nat.eqb_eq in E. subst k0. cbn [length].
  assert (H : filter (fun item => Nat.eqb (fst item) k) d = []).
  { clear IH Hd Hrest. induction d as [|[k1 l1] d IHd]; cbn [filter fst];
      [reflexivity|].
    destruct (Nat.eqb k1 k) eqn:E1.
    - apply Nat.eqb_eq in E1. exfalso. apply Hnot. now left.
    - apply IHd. intros Hin. apply Hnot. now right. }
  rewrite H. auto.
Qed.

Lemma keyed_Permutation (k : nat) (d d' : list (nat * list asset)) :
  Permutation d d' -> NoDup (map fst d) -> keyed k d = keyed k d'.
Proof.
  intros Hp Hd. unfold keyed.
  pose proof (filter_Permutation (fun item => Nat.eqb (fst item) k) _ _ Hp) as Hf.
  pose proof (filter_unique_key k d Hd) as Hlen.
  destruct (filter (fun item => Nat.eqb (fst item) k) d) as [|x [|y l]].
  - apply Permutation_nil in Hf. now rewrite Hf.
  - apply Permutation_length_1_inv in Hf. now rewrite Hf.
  - cbn in Hlen. lia.
Qed.

Lemma at_level_keyed (k : nat) (d : list (nat * list asset)) :
  by_level d -> at_level k (flat_map snd d) = keyed k d.
Proof.
  unfold by_level, at_level, keyed.
  induction 1 as [|[k0 l] d Hl _ IH]; cbn [flat_map snd filter fst];
    [reflexivity|].
  rewrite filter_app, IH. cbn [fst snd] in Hl.
  destruct (Nat.eqb k0 k) eqn:E; cbn [flat_map snd]; f_equal.
  - apply Nat.eqb_eq in E. subst k0. rewrite Forall_forall in Hl.
    induction l as [|a l IHl]; cbn [filter]; [reflexivity|].
    rewrite (proj2 (Nat.eqb_eq _ _) (Hl a (or_introl eq_refl))).
    f_equal. apply IHl. intros x Hx. apply Hl. now right.
  - apply Nat.eqb_neq in E. rewrite Forall_forall in Hl.
    induction l as [|a l IHl]; cbn [filter]; [reflexivity|].
    rewrite (Hl a (or_introl eq_refl)), (proj2 (Nat.eqb_neq _ _) E).
    apply IHl. intros x Hx. apply Hl. now right.
Qed.

(** The order of [delete_assets] is the listing sorted by decreasing level,
    the assets of one level keeping the order of the listing. *)
Lemma deletion_order_stable (listing : list asset) :
  deepest_first lvl (deletion_order listing) /\
  forall k, at_level k (deletion_order listing) = at_level k listing.
Proof.
  unfold deletion_order.
  set (groups := fold_left (fun d asset => setdefault_append (lvl asset) asset d)
                           listing []).
  destruct (grouping_spec listing [] (Forall_nil _)) as [Hlv _].
  destruct (grouping_by_level listing [] (NoDup_nil _)) as [Hnd Hkeyed].
  cbv zeta in Hlv, Hnd, Hkeyed. fold groups in Hlv, Hnd, Hkeyed.
  assert (Hlv' : by_level (sorted_reverse groups)).
  { unfold by_level.
    apply (Permutation_Forall (Permutation_sym (sorted_reverse_perm _))).
    exact Hlv. }
  split.
  - apply levels_deepest_first; [apply sorted_reverse_sorted | exact Hlv'].
  - intros k. rewrite (at_level_keyed k _ Hlv').
    rewrite <- (keyed_Permutation k groups (sorted_reverse groups)
                  (Permutation_sym (sorted_reverse_perm groups)) Hnd).
    now rewrite Hkeyed.
Qed.

(** X9. For a folder, the list [delete_assets] returns in dry-run mode is
    made of the names of the listed assets in an order that is the listing
    sorted by decreasing level and nothing else: all levels are in
    decreasing order, and the assets of any one level are in the order in
    which the listing gave them. *)
Theorem delete_assets_keeps_listing_order (fuel : nat)
    (asset_id : str_or_path) (r : R) (info : asset) (listing : list asset) :
  getAsset (to_str asset_id) r = inr info ->
  type info = "FOLDER" ->
  res (get_assets fuel (inl (to_str asset_id)) r) = Ok listing ->
  exists ordered,
    res (delete_assets fuel asset_id true r)
    = Ok (map name ordered ++ [to_str asset_id]) /\
    deepest_first lvl ordered /\
    forall k, at_level k ordered = at_level k listing.
Proof.
  intros Hinfo Hty Hlist. exists (deletion_order listing).
  split; [|apply deletion_order_stable].
  rewrite (delete_assets_dry_run_result fuel asset_id r info Hinfo).
  rewrite Hty, Hlist. reflexivity.
Qed.

Lemma split_nonempty (sep : ascii) (s : string) : split sep s <> [].
Proof.
  destruct s as [|c s]; cbn [split]; [discriminate|].
  destruct (Ascii.eqb c sep); [discriminate|].
  destruct (split sep s); discriminate.
Qed.

Lemma length_split_cons (sep c : ascii) (s : string) :
  Ascii.eqb c sep = false ->
  length (split sep (String c s)) = length (split sep s).
Proof.
  intros E. cbn [split]. rewrite E.
  pose proof (split_nonempty sep s) as H.
  destruct (split sep s); [contradiction | reflexivity].
Qed.

(** Joining two paths with the separator adds up their segments. *)
Lemma length_split_join (sep : ascii) (s1 s2 : string) :
  length (split sep (s1 ++ String sep s2))
  = length (split sep s1) + length (split sep s2).
Proof.
  induction s1 as [|c s1 IH].
  - cbn [append split]. rewrite Ascii.eqb_refl. reflexivity.
  - change (String c s1 ++ String sep s2)%string
      with (String c (s1 ++ String sep s2)).
    destruct (Ascii.eqb c sep) eqn:E.
    + cbn [split]. rewrite E. cbn [length]. now rewrite IH.
    + now rewrite !(length_split_cons _ _ _ E), IH.
Qed.

Lemma StronglySorted_tail {A} (le : A -> A -> Prop) (l1 l2 : list A) :
  StronglySorted le (l1 ++ l2) -> StronglySorted le l2.
Proof.
  induction l1 as [|x l1 IH]; cbn [app]; [auto|].
  intros H. apply StronglySorted_inv in H as [H _]. auto.
Qed.

(** X10. What lies below a listed asset goes first: when the id of a listed
    asset [b] is the id of a listed asset [a] followed by ['/'] and further
    characters, the list [delete_assets] returns in dry-run mode for the
    folder has the name of [b] before the name of [a]. *)
Theorem delete_assets_children_first (fuel : nat) (asset_id : str_or_path)
    (r : R) (info : asset) (listing : list asset) (a b : asset)
    (below : string) :
  getAsset (to_str asset_id) r = inr info ->
  type info = "FOLDER" ->
  res (get_assets fuel (inl (to_str asset_id)) r) = Ok listing ->
  In a listing -> In b listing ->
  id b = (id a ++ "/" ++ below)%string ->
  exists out,
    res (delete_assets fuel asset_id true r) = Ok out /\
    before (name b) (name a) out.
Proof.
  intros Hinfo Hty Hlist Ha Hb Hid.
  exists (map name (deletion_order listing) ++ [to_str asset_id]). split.
  { rewrite (delete_assets_dry_run_result fuel asset_id r info Hinfo).
    now rewrite Hty, Hlist. }
  destruct (deletion_order_stable listing) as [Hsorted Hlevels].
  assert (Hdeeper : lvl a < lvl b).
  { unfold lvl. rewrite Hid.
    change (id a ++ "/" ++ below)%string with (id a ++ String slash below)%string.
    rewrite length_split_join.
    pose proof (split_nonempty slash below) as H.
    destruct (split slash below); [contradiction | cbn [length]; lia]. }
  assert (Hin : forall x, In x listing -> In x (deletion_order listing)).
  { intros x Hx.
    assert (H : In x (at_level (lvl x) (deletion_order listing))).
    { rewrite Hlevels. unfold at_level. apply filter_In. split; [exact Hx|].
      apply Nat.eqb_refl. }
    unfold at_level in H. now apply filter_In in H. }
  destruct (in_split _ _ (Hin a Ha)) as (l1 & l2 & E).
  assert (Hb1 : In b l1).
  { pose proof (Hin b Hb) as H. rewrite E in H.
    apply in_app_or in H as [H|[H|H]]; [exact H | subst b; lia |].
    exfalso. unfold deepest_first in Hsorted. rewrite E in Hsorted.
    apply StronglySorted_tail in Hsorted.
    apply StronglySorted_inv in Hsorted as [_ Hall].
    rewrite Forall_forall in Hall. specialize (Hall b H). lia. }
  destruct (in_split _ _ Hb1) as (m1 & m2 & E1).
  exists (map name m1), (map name m2), (map name l2 ++ [to_str asset_id]).
  rewrite E, E1.
  repeat first [rewrite map_app | rewrite <- app_assoc | progress cbn [map app]].
  reflexivity.
Qed.

(** *** [export_asset] and [init_tree]: what is done when something fails *)

(** X11. For a feature collection or an image, and whatever happens next
    (the start raises, the task is not found, a poll raises, the task
    fails or the timeout elapses), [export_asset] starts this one export
    task and creates, starts and deletes nothing else; on a clock on which
    sleeping takes time it makes at most 12 status calls. *)
Theorem export_asset_starts_one_task (fuel : nat) (object : ComputedObject)
    (asset_id : str_or_path) (description : string) (r : R) (task : Task) :
  export_task object (to_str asset_id) description = Some task ->
  let o := export_asset fuel object asset_id description r in
  mutations (trace o) = [TaskStart task] /\
  (sleep_takes_time -> status_calls (trace o) <= 12).
Proof.
  intros Htask. cbv zeta. rewrite (export_asset_run _ _ _ _ _ _ Htask).
  destruct (fst (Task_start task r)); cbn [trace].
  - split; [reflexivity|]. intros _. cbn. lia.
  - cbv zeta. cbn [trace]. split.
    + change (mutations (?c :: ?t)) with (c :: mutations t).
      now rewrite (harmless_mutations _ (wait_harmless _ _ _ _)).
    + intros Hclock. cbn [status_calls].
      pose proof (wait_status_calls_bound fuel (inr description) default_timeout
                    (snd (Task_start task r)) Hclock) as H.
      cbv zeta in H.
      set (n := status_calls
                  (trace (wait fuel (inr description) default_timeout
                               (snd (Task_start task r))))) in *.
      clearbody n. unfold default_timeout in H. lia.
Qed.

Lemma follows_plan_bind {A B} (m : M R A) (f : A -> M R B) (p1 p2 : list call) :
  follows_plan m p1 -> (forall a, follows_plan (f a) p2) ->
  follows_plan (bind m f) (p1 ++ p2).
Proof.
  intros Hm Hf r. destruct (Hm r) as [Hpre HOk]. unfold bind.
  destruct (res (m r)) as [a| |] eqn:Hres; cbn [res trace].
  - destruct (Hf a (remote (m r))) as [Hpre' HOk'].
    rewrite mutations_app, (HOk a eq_refl). split.
    + now apply initial_segment_app_head.
    + intros b H. now rewrite (HOk' b H).
  - split; [now apply initial_segment_app_r | discriminate].
  - split; [now apply initial_segment_app_r | discriminate].
Qed.

Lemma follows_plan_command (c : call) (f : R -> (exn + unit) * R) :
  is_mutation c = true -> follows_plan (command c f) [c].
Proof.
  intros Hc r. unfold command, mutations. cbn [trace filter]. rewrite Hc.
  split; [apply initial_segment_refl | reflexivity].
Qed.

Lemma follows_plan_ret {A} (a : A) : follows_plan (@ret R A a) [].
Proof. intros r. split; [apply initial_segment_refl | reflexivity]. Qed.

Lemma follows_plan_for_each {A} (f : A -> M R unit) (g : A -> list call)
    (l : list A) :
  Forall (fun x => follows_plan (f x) (g x)) l ->
  follows_plan (for_each f l) (flat_map g l).
Proof.
  unfold for_each. induction 1 as [|x l Hx _ IH]; cbn [foldM flat_map].
  - apply follows_plan_ret.
  - apply follows_plan_bind; [exact Hx | intros []; exact IH].
Qed.

Lemma follows_plan_export_asset (fuel : nat) (object : ComputedObject)
    (asset_id : str_or_path) (description : string) :
  follows_plan (export_asset fuel object asset_id description)
    match export_task object (to_str asset_id) description with
    | Some t => [TaskStart t]
    | None => []
    end.
Proof.
  intros r.
  destruct (export_task object (to_str asset_id) description) as [task|]
    eqn:Htask.
  - rewrite (export_asset_run _ _ _ _ _ _ Htask).
    destruct (fst (Task_start task r)); cbn [trace res].
    + split; [apply initial_segment_refl | reflexivity].
    + cbv zeta. cbn [trace res].
      change (mutations (?c :: ?t)) with (c :: mutations t).
      rewrite (harmless_mutations _ (wait_harmless _ _ _ _)).
      split; [apply initial_segment_refl | reflexivity].
  - unfold export_asset. destruct object; simpl in Htask; try discriminate.
    cbn. split; [apply initial_segment_refl | discriminate].
Qed.

Lemma follows_plan__recursive_create_item (fuel : nat) (prefix : string) :
  forall (c : content) (folder : str_or_path) (name : string),
    follows_plan (_recursive_create_item fuel prefix folder name c)
                 (plan_item prefix (to_path folder) name c).
Proof.
  induction c as [items IH|object] using content_induction;
    intros folder name; cbn [_recursive_create_item plan_item].
  - apply (follows_plan_bind _ _ [_]).
    + now apply follows_plan_command.
    + intros _. apply follows_plan_for_each.
      rewrite Forall_forall in IH. apply Forall_forall. intros item Hin.
      exact (IH item Hin (inr (joinpath (to_path folder) name)) (fst item)).
  - rewrite <- (app_nil_r (match export_task _ _ _ with
                           | Some t => [TaskStart t] | None => [] end)).
    apply follows_plan_bind; [|intros _; apply follows_plan_ret].
    apply (follows_plan_export_asset fuel object
             (inr (joinpath (to_path folder) name))).
Qed.

Lemma deleted_mutations (tr : list call) : deleted (mutations tr) = deleted tr.
Proof.
  unfold mutations. induction tr as [|c tr IH]; [reflexivity|].
  destruct c; simpl; rewrite ?IH; reflexivity.
Qed.

Lemma plan_item_deletes_nothing (prefix : string) :
  forall (c : content) (folder : PurePosixPath) (name : string),
    deleted (plan_item prefix folder name c) = [].
Proof.
  induction c as [items IH|object] using content_induction;
    intros folder name; cbn [plan_item deleted].
  - induction IH as [|item items Hitem _ IHitems]; cbn [flat_map];
      [reflexivity|].
    now rewrite deleted_app, Hitem, IHitems.
  - destruct (export_task _ _ _); reflexivity.
Qed.

Lemma plan_deletes_nothing (prefix : string) (folder : PurePosixPath)
    (structure : list (string * content)) :
  deleted (plan prefix folder structure) = [].
Proof.
  unfold plan. induction structure as [|item structure IH]; cbn [flat_map];
    [reflexivity|].
  now rewrite deleted_app, plan_item_deletes_nothing, IH.
Qed.

(** X12. Whatever the outcome of [init_tree], what it has created and
    started is an initial segment of what the specification asks for, in
    that order: the root folder, then the folders and exports of the
    specification up to the call that raised; and it has deleted nothing,
    so that what was created before a failure stays. *)
Theorem init_tree_does_the_first_of_the_plan (fuel : nat)
    (structure : list (string * content)) (prefix root : string) (r : R) :
  let o := init_tree fuel structure prefix root r in
  deleted (trace o) = [] /\
  forall first_root others,
    getAssetRoots r = inr (first_root :: others) ->
    let root_folder := (id first_root ++ "/" ++ prefix)%string in
    initial_segment (mutations (trace o))
      (CreateAsset "FOLDER" root_folder
       :: plan prefix (parse_path root_folder) structure).
Proof.
  cbv zeta.
  assert (H : forall first_root others,
    getAssetRoots r = inr (first_root :: others) ->
    initial_segment
      (mutations (trace (init_tree fuel structure prefix root r)))
      (CreateAsset "FOLDER" (id first_root ++ "/" ++ prefix)%string
       :: plan prefix (parse_path (id first_root ++ "/" ++ prefix)%string)
               structure)).
  { intros first_root others Hroots. rewrite init_tree_run, Hroots. cbv zeta.
    destruct (fst (createAsset "FOLDER" _ r)); cbn [trace].
    - eexists. reflexivity.
    - change (mutations (?c :: ?c' :: ?t)) with (c' :: mutations t).
      apply (initial_segment_app_head [_]). unfold _recursive_create, plan.
      apply (follows_plan_for_each
               (fun item => _recursive_create_item fuel prefix
                              (inl (id first_root ++ "/" ++ prefix)%string)
                              (fst item) (snd item))
               (fun item => plan_item prefix
                              (parse_path (id first_root ++ "/" ++ prefix)%string)
                              (fst item) (snd item))).
      apply Forall_forall. intros item _.
      apply (follows_plan__recursive_create_item fuel prefix (snd item)
               (inl (id first_root ++ "/" ++ prefix)%string) (fst item)). }
  split; [|exact H].
  destruct (getAssetRoots r) as [e|[|first_root others]] eqn:Hroots.
  - rewrite init_tree_run, Hroots. reflexivity.
  - rewrite init_tree_run, Hroots. reflexivity.
  - destruct (H first_root others eq_refl) as (rest & E).
    rewrite <- deleted_mutations.
    assert (Hd : deleted (mutations (trace (init_tree fuel structure prefix
                                               root r)) ++ rest) = []).
    { rewrite <- E. cbn [deleted]. apply plan_deletes_nothing. }
    rewrite deleted_app in Hd. now apply app_eq_nil in Hd.
Qed.

(** X13. [init_tree] gives up at the root in three cases, having created
    nothing or attempted the root folder only: when the asset roots cannot
    be read it raises that error; when the account has no asset root it
    raises an index error; and when the root folder cannot be created
    (it exists already, say) it raises that error without going into the
    specification. *)
Theorem init_tree_gives_up_at_the_root (fuel : nat)
    (structure : list (string * content)) (prefix root : string) (r : R) :
  let o := init_tree fuel structure prefix root r in
  (forall e, getAssetRoots r = inl e ->
     res o = Raise e /\ trace o = [GetAssetRoots] /\ remote o = r) /\
  (getAssetRoots r = inr [] ->
     res o = Raise (IndexError "list index out of range") /\
     trace o = [GetAssetRoots] /\ remote o = r) /\
  (forall first_root others e,
     getAssetRoots r = inr (first_root :: others) ->
     let root_folder := (id first_root ++ "/" ++ prefix)%string in
     fst (createAsset "FOLDER" root_folder r) = inl e ->
     res o = Raise e /\
     trace o = [GetAssetRoots; CreateAsset "FOLDER" root_folder]).
Proof.
  cbv zeta. rewrite init_tree_run. split; [|split].
  - intros e ->. auto.
  - intros ->. auto.
  - intros first_root others e -> Hcreate. cbv zeta. rewrite Hcreate. auto.
Qed.

(** *** [wait]: the polls in time *)

Lemma polled_timed (tr : list call) :
  forall r : R, polled tr = map snd (timed_polls r tr).
Proof.
  induction tr as [|c tr IH]; intros r; [reflexivity|].
  destruct c; cbn [polled timed_polls]; try apply IH.
  destruct observed; cbn [map snd]; [apply IH | f_equal; apply IH].
Qed.

(** The loop of [wait] with the time of every poll: it goes on after a
    poll exactly when that poll observed no terminal state and was made
    before the timeout elapsed. *)
Lemma wait_loop_timed (task : Task) (timeout start : Z) :
  sleep_takes_time ->
  forall (fuel : nat) (state : string) (r : R),
    1 <= fuel ->
    (start + timeout - time_time r <= 5 * (Z.of_nat fuel - 1))%Z ->
    let o := wait_loop fuel task timeout start state r in
    (res o = Ok state /\ trace o = [] /\ remote o = r /\
     (state = "COMPLETED" \/ (timeout <= time_time r - start)%Z))
    \/
    (state <> "COMPLETED" /\ (time_time r - start < timeout)%Z /\
     exists earlier tr,
       Forall (fun p => (fst p - start < timeout)%Z /\ ~ terminal (snd p))
              earlier /\
       ((exists s,
           res o = Ok s /\
           timed_polls r (trace o) = earlier ++ [(time_time (remote o), s)] /\
           trace o = tr ++ [TaskStatus task (inr s)] /\
           (terminal s \/ (timeout <= time_time (remote o) - start)%Z))
        \/
        (exists e, res o = Raise e /\ timed_polls r (trace o) = earlier /\
                   trace o = tr ++ [TaskStatus task (inl e)]))).
Proof.
  intros Hclock. induction fuel as [|fuel IH]; intros state r Hfuel Hleft; [lia|].
  cbv zeta. rewrite wait_loop_step.
  destruct (state =? "COMPLETED") eqn:Hc; simpl negb; simpl andb.
  { left. apply String.eqb_eq in Hc. auto. }
  apply String.eqb_neq in Hc.
  destruct (time_time r - start <? timeout)%Z eqn:Ht.
  2:{ left. apply Z.ltb_ge in Ht. auto. }
  apply Z.ltb_lt in Ht. right. split; [exact Hc|]. split; [exact Ht|].
  pose proof (Hclock 5%Z r) as Hs. cbv zeta.
  destruct (Task_status task (time_sleep 5 r)) as [e|s] eqn:Hst.
  - exists [], [Sleep 5]. split; [constructor|]. right. exists e.
    cbn [res trace timed_polls app]. auto.
  - destruct (s =? "FAILED") eqn:Hf.
    + apply String.eqb_eq in Hf. exists [], [Sleep 5]. split; [constructor|].
      left. exists s. cbn [res trace remote timed_polls app].
      repeat split. left. right. exact Hf.
    + apply String.eqb_neq in Hf.
      destruct (IH s (time_sleep 5 r)) as
        [(Hres & Htr & Hrem & Hend)
        | (Hs' & Hbefore & earlier & tr & Hall & Hcases)];
        [lia | lia | |].
      * exists [], [Sleep 5]. split; [constructor|]. left. exists s.
        cbn [res trace remote timed_polls]. rewrite Htr, Hrem.
        cbn [timed_polls app]. repeat split; [exact Hres|].
        destruct Hend as [Hend|Hend]; [left; left; exact Hend | right; exact Hend].
      * exists ((time_time (time_sleep 5 r), s) :: earlier),
               (Sleep 5 :: TaskStatus task (inr s) :: tr).
        split.
        { constructor; [|exact Hall]. cbn [fst snd]. split; [exact Hbefore|].
          intros [E|E]; contradiction. }
        destruct Hcases as [(s' & Hres & Hp & Htr & Hend) | (e & Hres & Hp & Htr)].
        -- left. exists s'. cbn [res trace remote timed_polls].
           rewrite Hp, Htr. auto.
        -- right. exists e. cbn [res trace remote timed_polls].
           rewrite Hp, Htr. auto.
Qed.

(** [wait] on a task or on a description that resolves: the run is the
    initial delay, the lookup if any, and the loop on the task. *)
Lemma wait_resolved (fuel : nat) (task : Task + string) (t : Task)
    (timeout : Z) (r : R) :
  resolves_to r task t ->
  let o := wait fuel task timeout r in
  let loop := wait_loop fuel t timeout (time_time (time_sleep 5 r))
                        "UNSUBMITTED" (time_sleep 5 r) in
  res o = res loop /\ remote o = remote loop /\
  timed_polls r (trace o) = timed_polls (time_sleep 5 r) (trace loop) /\
  exists pre, trace o = pre ++ trace loop.
Proof.
  intros Hres. cbv zeta. rewrite wait_run. cbv zeta.
  destruct task as [t'|d]; cbn [resolves_to] in Hres.
  - subst t'. cbn [res remote trace timed_polls].
    repeat split. now exists [Sleep 5].
  - destruct Hres as (before & after & Hlist & Hb & Ht).
    rewrite Hlist, (find_first_match d before after t Hb Ht).
    cbn [res remote trace timed_polls].
    repeat split. now exists [Sleep 5; TaskList].
Qed.

(** C3, as the code has it.  With a positive timeout and fuel for it,
    [wait] on a task, or on a description that resolves to one,
    terminates.  When it returns, the state returned is the one its last
    poll observed, that poll is its last call, and every earlier poll was
    made before the timeout elapsed and observed no terminal state.  So:
    if one of its polls observes COMPLETED it returns "COMPLETED"; if one
    of its polls observes FAILED it returns "FAILED", no poll and no sleep
    following that one; and if no poll made before the timeout elapsed
    observes a terminal state, then, unless a status call raises, it
    returns the state of a poll made once the timeout has elapsed, its
    last one, whether this state is terminal or not.  It raises only when
    a status call raises. *)
Theorem wait_returns_observed_state (fuel : nat) (task : Task + string)
    (t : Task) (timeout : Z) (r : R) :
  sleep_takes_time ->
  (0 < timeout)%Z ->
  (timeout <= 5 * (Z.of_nat fuel - 1))%Z ->
  resolves_to r task t ->
  let o := wait fuel task timeout r in
  let start_time := time_time (time_sleep 5 r) in
  let timed := timed_polls r (trace o) in
  let polls := polled (trace o) in
  polls = map snd timed /\
  res o <> OutOfFuel /\
  (forall state, res o = Ok state ->
     exists tr earlier,
       trace o = tr ++ [TaskStatus t (inr state)] /\
       timed = earlier ++ [(time_time (remote o), state)] /\
       Forall (fun p => (fst p - start_time < timeout)%Z /\ ~ terminal (snd p))
              earlier /\
       (terminal state \/ (timeout <= time_time (remote o) - start_time)%Z)) /\
  (In "COMPLETED" polls -> res o = Ok "COMPLETED") /\
  (In "FAILED" polls -> res o = Ok "FAILED") /\
  ((forall p, In p timed -> (fst p - start_time < timeout)%Z ->
              ~ terminal (snd p)) ->
     (exists e, res o = Raise e) \/
     exists earlier at_time state,
       timed = earlier ++ [(at_time, state)] /\
       res o = Ok state /\
       (timeout <= at_time - start_time)%Z /\
       Forall (fun p => ~ terminal (snd p)) earlier) /\
  (~ In "COMPLETED" polls -> ~ In "FAILED" polls ->
     forall state, res o = Ok state ->
       (timeout <= time_time (remote o) - start_time)%Z) /\
  (forall e, res o = Raise e ->
     exists tr, trace o = tr ++ [TaskStatus t (inl e)]).
Proof.
  intros Hclock Hpos Hfuel Hresolves. cbv zeta.
  split; [apply polled_timed|].
  rewrite (polled_timed (trace (wait fuel task timeout r)) r).
  destruct (wait_resolved fuel task t timeout r Hresolves)
    as (Eres & Erem & Etimed & pre & Etrace).
  cbv zeta in Eres, Erem, Etimed, Etrace.
  rewrite Eres, Erem, Etimed, Etrace. clear Eres Erem Etimed Etrace.
  set (r0 := time_sleep 5 r).
  assert (H1 : 1 <= fuel) by lia.
  assert (H2 : (time_time r0 + timeout - time_time r0
                <= 5 * (Z.of_nat fuel - 1))%Z) by lia.
  destruct (wait_loop_timed t timeout (time_time r0) Hclock fuel
              "UNSUBMITTED" r0 H1 H2)
    as [(_ & _ & _ & [E|E]) | (_ & _ & earlier & tr & Hall & Hcases)];
    [discriminate | lia |].
  assert (Hin : forall s, terminal s -> ~ In s (map snd earlier)).
  { intros s Hs Hin. apply in_map_iff in Hin as (p & <- & Hp).
    rewrite Forall_forall in Hall. exact (proj2 (Hall p Hp) Hs). }
  destruct Hcases as [(s & Hres & Hp & Htr & Hend) | (e & Hres & Hp & Htr)].
  - rewrite Hres, Hp, Htr.
    split; [|split; [|split; [|split; [|split; [|split]]]]].
    + discriminate.
    + intros state Hstate. inversion Hstate; subst state.
      exists (pre ++ tr), earlier. rewrite app_assoc. auto.
    + rewrite map_app. intros H. apply in_app_or in H as [H|[H|[]]].
      * exfalso. apply (Hin "COMPLETED"); [left; reflexivity | exact H].
      * cbn [snd] in H. now rewrite H.
    + rewrite map_app. intros H. apply in_app_or in H as [H|[H|[]]].
      * exfalso. apply (Hin "FAILED"); [right; reflexivity | exact H].
      * cbn [snd] in H. now rewrite H.
    + intros Hbefore. right.
      exists earlier, (time_time (remote (wait_loop fuel t timeout
                                            (time_time r0) "UNSUBMITTED" r0))), s.
      split; [reflexivity|]. split; [reflexivity|]. split.
      * destruct Hend as [Hs|Hend]; [|exact Hend].
        destruct (Z.lt_ge_cases
                    (time_time (remote (wait_loop fuel t timeout
                                          (time_time r0) "UNSUBMITTED" r0))
                     - time_time r0) timeout) as [Hlt|Hge]; [|exact Hge].
        exfalso. refine (Hbefore (_, s) _ Hlt Hs).
        apply in_or_app. right. left. reflexivity.
      * apply Forall_forall. intros p Hp'. rewrite Forall_forall in Hall.
        exact (proj2 (Hall p Hp')).
    + rewrite map_app. intros Hnc Hnf state Hstate.
      inversion Hstate; subst state.
      destruct Hend as [[Hs|Hs]|Hend]; [| |exact Hend].
      * exfalso. apply Hnc. apply in_or_app. right. left. exact Hs.
      * exfalso. apply Hnf. apply in_or_app. right. left. exact Hs.
    + discriminate.
  - rewrite Hres, Hp, Htr.
    split; [|split; [|split; [|split; [|split; [|split]]]]].
    + discriminate.
    + discriminate.
    + intros H. exfalso. apply (Hin "COMPLETED"); [left; reflexivity | exact H].
    + intros H. exfalso. apply (Hin "FAILED"); [right; reflexivity | exact H].
    + intros _. left. now exists e.
    + discriminate.
    + intros e' He'. inversion He'; subst e'. exists (pre ++ tr).
      now rewrite app_assoc.
Qed.

(** *** [init_tree]: the plan carried out *)

Lemma perform_app (fuel : nat) (p1 p2 : list call) :
  forall r : R,
    perform fuel (p1 ++ p2) r =
    match perform fuel p1 r with
    | Some r1 => perform fuel p2 r1
    | None => None
    end.
Proof.
  induction p1 as [|c p1 IH]; intros r; [reflexivity|].
  destruct c; cbn [app perform]; try reflexivity.
  - destruct (fst (Task_start t r)); [reflexivity|].
    cbv zeta. destruct (res (wait _ _ _ _)); [apply IH | reflexivity..].
  - destruct (fst (createAsset ty path r)); [reflexivity | apply IH].
Qed.

Lemma carries_out_ret (fuel : nat) : carries_out fuel (@ret R unit tt) [] true.
Proof.
  intros r r'. cbn. split.
  - intros [_ H]. inversion H. auto.
  - intros [_ H]. subst. auto.
Qed.

Lemma carries_out_bind (fuel : nat) (m : M R unit) (f : unit -> M R unit)
    (p1 p2 : list call) (ok1 ok2 : bool) :
  carries_out fuel m p1 ok1 ->
  (forall u, carries_out fuel (f u) p2 ok2) ->
  carries_out fuel (bind m f) (p1 ++ p2) (ok1 && ok2).
Proof.
  intros Hm Hf r r'. rewrite perform_app. split.
  - intros [Hok Hp]. apply andb_true_iff in Hok as [Hok1 Hok2].
    destruct (perform fuel p1 r) as [r1|] eqn:Hp1; [|discriminate].
    destruct (proj1 (Hm r r1) (conj Hok1 Hp1)) as [Hres Hrem].
    rewrite (bind_run_Ok _ _ _ tt Hres). cbn [res remote]. rewrite Hrem.
    exact (proj1 (Hf tt r1 r') (conj Hok2 Hp)).
  - intros [Hres Hrem]. unfold bind in Hres, Hrem.
    destruct (res (m r)) as [[]| |] eqn:Hm1; cbn [res remote] in Hres, Hrem;
      try discriminate.
    destruct (proj2 (Hm r (remote (m r))) (conj Hm1 eq_refl)) as [Hok1 Hp1].
    destruct (proj2 (Hf tt (remote (m r)) r') (conj Hres Hrem)) as [Hok2 Hp2].
    rewrite Hp1, Hok1, Hok2. auto.
Qed.

Lemma carries_out_for_each {A} (fuel : nat) (f : A -> M R unit)
    (g : A -> list call) (ok : A -> bool) (l : list A) :
  Forall (fun x => carries_out fuel (f x) (g x) (ok x)) l ->
  carries_out fuel (for_each f l) (flat_map g l) (forallb ok l).
Proof.
  unfold for_each. induction 1 as [|x l Hx _ IH]; cbn [foldM flat_map forallb].
  - apply carries_out_ret.
  - apply carries_out_bind; [exact Hx | intros []; exact IH].
Qed.

Lemma carries_out_createAsset (fuel : nat) (ty path : string) :
  carries_out fuel (command (CreateAsset ty path) (createAsset ty path))
              [CreateAsset ty path] true.
Proof.
  intros r r'. unfold command. cbn [perform res remote].
  destruct (fst (createAsset ty path r)) as [e|[]]; cbn [reply]; split.
  - intros [_ H]. discriminate.
  - intros [H _]. discriminate.
  - intros [_ H]. inversion H. auto.
  - intros [_ H]. subst. auto.
Qed.

Lemma export_task_description (object : ComputedObject)
    (asset_id description : string) (task : Task) :
  export_task object asset_id description = Some task ->
  config_description task = description.
Proof.
  destruct object; cbn [export_task]; intros H; inversion H; reflexivity.
Qed.

Lemma carries_out_export_asset (fuel : nat) (object : ComputedObject)
    (asset_id : str_or_path) (description : string) :
  carries_out fuel
    (export_asset fuel object asset_id description ;; ret tt)
    match export_task object (to_str asset_id) description with
    | Some t => [TaskStart t]
    | None => []
    end
    (exportable (Leaf object)).
Proof.
  intros r r'. rewrite then_ret_run. cbn [res remote].
  destruct (export_task object (to_str asset_id) description) as [task|]
    eqn:Htask.
  - assert (Hok : exportable (Leaf object) = true).
    { destruct object; cbn in Htask |- *; [reflexivity..|discriminate]. }
    rewrite Hok, (export_asset_run _ _ _ _ _ _ Htask). cbn [perform].
    rewrite (export_task_description _ _ _ _ Htask).
    destruct (fst (Task_start task r)); cbn [res remote].
    + split; intros [H1 H2]; discriminate.
    + cbv zeta. cbn [res remote].
      destruct (res (wait fuel (inr description) default_timeout
                       (snd (Task_start task r)))); split;
        intros [H1 H2]; try discriminate.
      * inversion H2. auto.
      * subst. auto.
  - assert (Hok : exportable (Leaf object) = false).
    { destruct object; cbn in Htask |- *; try discriminate. reflexivity. }
    assert (E : res (export_asset fuel object asset_id description r)
                = Raise (ValueError
                    "Only ee.Image and ee.FeatureCollection are supported")).
    { unfold export_asset. destruct object; simpl in Htask; try discriminate.
      reflexivity. }
    rewrite Hok, E. split; intros [H1 H2]; discriminate.
Qed.

Lemma carries_out__recursive_create_item (fuel : nat) (prefix : string) :
  forall (c : content) (folder : str_or_path) (name : string),
    carries_out fuel (_recursive_create_item fuel prefix folder name c)
                (plan_item prefix (to_path folder) name c) (exportable c).
Proof.
  induction c as [items IH|object] using content_induction;
    intros folder name; cbn [_recursive_create_item plan_item].
  - change (exportable (Dict items))
      with (true && forallb (fun item => exportable (snd item)) items).
    apply (carries_out_bind fuel _ _ [_]).
    + apply carries_out_createAsset.
    + intros _. apply carries_out_for_each.
      rewrite Forall_forall in IH. apply Forall_forall. intros item Hin.
      exact (IH item Hin (inr (joinpath (to_path folder) name)) (fst item)).
  - apply (carries_out_export_asset fuel object
             (inr (joinpath (to_path folder) name))).
Qed.

(** C7. Let the account have a first asset root, and let the plan of the
    specification be: the root folder [<root>/<prefix>], [<root>] being the
    id of that root, then for every item whose value is a dictionary a
    folder named after the key followed by the items of that dictionary in
    it, and for every other item the export of the value to the asset named
    after the key, described [<prefix>_<name>].  Then [init_tree] returns
    exactly when every leaf of the specification is exportable and the
    plan can be carried out, each creation and each start succeeding and
    each export being waited for; it then returns the path
    [<root>/<prefix>], leaves the state the plan leads to, and what it has
    created and started is the plan, in order.  With fuel for the default
    timeout it terminates.  For the specification of the docstring and the
    prefix "toto" the plan below a folder is the folder [folder_1] and the
    two exports to [folder_1/image] and [folder_1/fc], described
    [toto_image] and [toto_fc]. *)
Theorem init_tree_creates_the_tree (fuel : nat)
    (structure : list (string * content)) (prefix root : string) (r : R)
    (first_root : asset) (others : list asset) :
  getAssetRoots r = inr (first_root :: others) ->
  let root_folder := (id first_root ++ "/" ++ prefix)%string in
  let planned := CreateAsset "FOLDER" root_folder
                 :: plan prefix (parse_path root_folder) structure in
  let o := init_tree fuel structure prefix root r in
  (forall r',
     all_exportable structure = true /\ perform fuel planned r = Some r' <->
     res o = Ok (parse_path root_folder) /\ remote o = r') /\
  (forall p, res o = Ok p ->
     p = parse_path root_folder /\ mutations (trace o) = planned) /\
  (sleep_takes_time -> 13 <= fuel -> res o <> OutOfFuel) /\
  (forall folder : PurePosixPath,
     let folder_1 := joinpath folder "folder_1" in
     plan "toto" folder example_structure =
     [ CreateAsset "FOLDER" (as_posix folder_1);
       TaskStart {| task_type := "EXPORT_IMAGE";
                    config_description := "toto_image";
                    config_assetId := as_posix (joinpath folder_1 "image");
                    config_element := Image "1";
                    config_region := Some (geometry (Image "1")) |};
       TaskStart {| task_type := "EXPORT_FEATURES";
                    config_description := "toto_fc";
                    config_assetId := as_posix (joinpath folder_1 "fc");
                    config_element := FeatureCollection "Point([0, 0])";
                    config_region := None |} ]).
Proof.
  intros Hroots. cbv zeta. rewrite init_tree_run, Hroots. cbv zeta.
  set (root_folder := (id first_root ++ "/" ++ prefix)%string).
  pose proof (carries_out_for_each fuel
                (fun item => _recursive_create_item fuel prefix
                               (inl root_folder) (fst item) (snd item))
                (fun item => plan_item prefix (parse_path root_folder)
                               (fst item) (snd item))
                (fun item => exportable (snd item)) structure) as Hcarry.
  pose proof (follows_plan_for_each
                (fun item => _recursive_create_item fuel prefix
                               (inl root_folder) (fst item) (snd item))
                (fun item => plan_item prefix (parse_path root_folder)
                               (fst item) (snd item)) structure) as Hplan.
  fold (_recursive_create fuel structure prefix (inl root_folder)) in Hcarry, Hplan.
  fold (plan prefix (parse_path root_folder) structure) in Hcarry, Hplan.
  fold (all_exportable structure) in Hcarry.
  assert (Hcarry' : carries_out fuel
                      (_recursive_create fuel structure prefix (inl root_folder))
                      (plan prefix (parse_path root_folder) structure)
                      (all_exportable structure)).
  { apply Hcarry. apply Forall_forall. intros item _.
    apply (carries_out__recursive_create_item fuel prefix (snd item)
             (inl root_folder) (fst item)). }
  assert (Hplan' : follows_plan
                     (_recursive_create fuel structure prefix (inl root_folder))
                     (plan prefix (parse_path root_folder) structure)).
  { apply Hplan. apply Forall_forall. intros item _.
    apply (follows_plan__recursive_create_item fuel prefix (snd item)
             (inl root_folder) (fst item)). }
  clear Hcarry Hplan. cbn [perform].
  destruct (fst (createAsset "FOLDER" root_folder r)) as [e|u] eqn:Hcreate.
  - split; [|split; [|split; [|reflexivity]]].
    + intros r'. split; intros [H1 H2]; discriminate.
    + discriminate.
    + discriminate.
  - cbn [res remote trace].
    set (r1 := snd (createAsset "FOLDER" root_folder r)) in *.
    split; [|split; [|split; [|reflexivity]]].
    + intros r'. rewrite (Hcarry' r1 r').
      destruct (res (_recursive_create fuel structure prefix (inl root_folder) r1))
        as [[]| |]; split; intros [H1 H2]; try discriminate; auto.
    + intros p H.
      destruct (res (_recursive_create fuel structure prefix (inl root_folder) r1))
        as [done| |] eqn:Hres; try discriminate.
      split; [now inversion H|].
      change (mutations (?c :: ?c' :: ?t)) with (c' :: mutations t).
      now rewrite (proj2 (Hplan' r1) done Hres).
    + intros Hclock Hfuel. unfold _recursive_create.
      destruct (for_each_mutations
                  (fun item => _recursive_create_item fuel prefix
                                 (inl root_folder) (fst item) (snd item))
                  (fun item => plan_item prefix (parse_path root_folder)
                                 (fst item) (snd item))
                  structure) with (r := r1) as [Hfuel' _].
      { apply Forall_forall. intros item _ r'.
        exact (_recursive_create_item_plan fuel prefix Hclock Hfuel (snd item)
                 (inl root_folder) (fst item) r'). }
      destruct (res (for_each _ structure _)); congruence.
Qed.

End Further.

(* ================================================================== *)
(** ** Runs on the account in memory *)

#[local] Existing Instance Fake.client.

(** The docstring example of [init_tree], then the listing and the
    deletion of what it created. *)
Example init_tree_then_delete :
  let created := init_tree (ee := Fake.client) 13 example_structure "toto" ""
                           Fake.project in
  let listed := get_assets (ee := Fake.client) 3
                           (inl "projects/demo/assets/toto") (remote created) in
  let removed := delete_assets (ee := Fake.client) 3
                   (inl "projects/demo/assets/toto") false (remote created) in
  res created = Ok (parse_path "projects/demo/assets/toto") /\
  Fake.fmap_names (res listed)
  = Some [ "projects/demo/assets/toto/folder_1";
           "projects/demo/assets/toto/folder_1/image";
           "projects/demo/assets/toto/folder_1/fc" ] /\
  res removed = Ok [ "projects/demo/assets/toto/folder_1/image";
                     "projects/demo/assets/toto/folder_1/fc";
                     "projects/demo/assets/toto/folder_1";
                     "projects/demo/assets/toto" ] /\
  Fake.rows (remote removed) = [].
Proof. vm_compute. auto. Qed.

(** [wait] on an export that takes 12 seconds: with the default timeout the
    second poll observes COMPLETED; with a timeout of 3 seconds the only
    poll observes RUNNING; with a timeout of 0 there is no poll. *)
Example wait_on_a_running_export :
  let run timeout := wait (ee := Fake.client) 13 (inl Fake.image_export)
                          timeout Fake.exporting in
  (res (run 60%Z), polled (trace (run 60%Z)))
  = (Ok "COMPLETED", ["RUNNING"; "COMPLETED"]) /\
  (res (run 3%Z), polled (trace (run 3%Z))) = (Ok "RUNNING", ["RUNNING"]) /\
  (res (run 0%Z), polled (trace (run 0%Z))) = (Ok "UNSUBMITTED", []).
Proof. vm_compute. auto. Qed.

(** [export_asset] on a geometry raises without a call; [delete_assets] on
    an image returns its single entry, and in dry-run mode the image is
    still there. *)
Example unsupported_object_and_single_asset :
  let exported := export_asset (ee := Fake.client) 13
                    (geometry (Image "1")) (inl "projects/demo/assets/g")
                    "toto_g" Fake.project in
  let dry := delete_assets (ee := Fake.client) 3 (inl "users/u/f/img") true
                           Fake.legacy_account in
  let wet := delete_assets (ee := Fake.client) 3 (inl "users/u/f/img") false
                           Fake.legacy_account in
  (res exported, trace exported)
  = (Raise (ValueError "Only ee.Image and ee.FeatureCollection are supported"),
     []) /\
  (res dry, length (Fake.rows (remote dry))) = (Ok ["users/u/f/img"], 4) /\
  (res wet, length (Fake.rows (remote wet)), deleted (trace wet))
  = (Ok ["users/u/f/img"], 3, ["users/u/f/img"]).
Proof. vm_compute. auto. Qed.

(** In the legacy account the folder [users/u/f] is listed with three
    assets whose ids are [users/u/f/...]: the list returned holds their
    names, not their ids. *)
Lemma delete_assets_dry_run_returns_names :
  exists listing out,
    res (get_assets (ee := Fake.client) 3 (inl "users/u/f") Fake.legacy_account)
    = Ok listing /\
    res (delete_assets (ee := Fake.client) 3 (inl "users/u/f") true
           Fake.legacy_account) = Ok out /\
    ~ ids_deepest_first listing "users/u/f" out.
Proof.
  eexists. eexists. split; [vm_compute; reflexivity|].
  split; [vm_compute; reflexivity|].
  intros (body & Hout & Hperm & _).
  assert (Hin : In "users/u/f/img" (body ++ ["users/u/f"])).
  { apply in_or_app. left. apply (Permutation_in _ (Permutation_sym Hperm)).
    left. reflexivity. }
  rewrite <- Hout in Hin. simpl in Hin.
  repeat (destruct Hin as [Hin|Hin]; [discriminate|]). exact Hin.
Qed.

Lemma delete_assets_dry_run_deepest_first_witness :
  getAsset (EE := Fake.client) "users/u/f" Fake.legacy_account
  = inr (Fake.legacy_asset "FOLDER" "users/u/f") /\
  type (Fake.legacy_asset "FOLDER" "users/u/f") = "FOLDER" /\
  res (get_assets (ee := Fake.client) 3 (inl "users/u/f") Fake.legacy_account)
  = Ok Fake.legacy_listing /\
  exists out,
    res (delete_assets (ee := Fake.client) 3 (inl "users/u/f") true
           Fake.legacy_account) = Ok out /\
    length out = S (length Fake.legacy_listing) /\
    names_deepest_first Fake.legacy_listing "users/u/f" out /\
    ((forall a, In a Fake.legacy_listing -> name a = id a) ->
     ids_deepest_first Fake.legacy_listing "users/u/f" out).
Proof.
  split; [reflexivity|]. split; [reflexivity|]. split; [reflexivity|].
  apply (delete_assets_dry_run_deepest_first (ee := Fake.client) 3
           (inl "users/u/f") Fake.legacy_account
           (Fake.legacy_asset "FOLDER" "users/u/f") Fake.legacy_listing);
    reflexivity.
Defined.

Lemma wait_unknown_description_witness :
  Task_list (EE := Fake.client) (time_sleep 5 Fake.exporting)
  = inr [Fake.image_export] /\
  (forall t, In t [Fake.image_export] -> config_description t <> "toto_fc") /\
  let o := wait (ee := Fake.client) 13 (inr "toto_fc") 60 Fake.exporting in
  res o = Raise (AssertionError "The task is not found") /\
  trace o = [Sleep 5; TaskList] /\
  polled (trace o) = [].
Proof.
  split; [reflexivity|].
  split; [intros t [<-|[]]; discriminate|].
  apply (wait_unknown_description (ee := Fake.client) 13 "toto_fc" 60
           Fake.exporting [Fake.image_export]).
  - reflexivity.
  - intros t [<-|[]]. discriminate.
Defined.

Lemma get_assets_discovery_order_witness :
  mirrors (ee := Fake.client) Fake.legacy_account "users/u/f"
          Fake.legacy_forest /\
  height Fake.legacy_forest < 3 /\
  let o := get_assets (ee := Fake.client) 3 (inl "users/u/f")
                      Fake.legacy_account in
  let out := flat_map preorder Fake.legacy_forest in
  res o = Ok out /\
  remote o = Fake.legacy_account /\
  (listAssets (EE := Fake.client) "users/u/f" Fake.legacy_account = inr [] ->
   res o = Ok []) /\
  (forall a children c,
     inside (Node a children) Fake.legacy_forest -> In c children ->
     before a (root c) out) /\
  (forall x y f1 f2 f3,
     Fake.legacy_forest = f1 ++ x :: f2 ++ y :: f3 ->
     before (root x) (root y) out) /\
  (forall a children x y c1 c2 c3,
     inside (Node a children) Fake.legacy_forest ->
     children = c1 ++ x :: c2 ++ y :: c3 ->
     before (root x) (root y) out).
Proof.
  assert (Hm : mirrors (ee := Fake.client) Fake.legacy_account "users/u/f"
                       Fake.legacy_forest).
  { apply mirrors_listing; [reflexivity|].
    apply mirrors_file; [reflexivity|].
    apply mirrors_folder; [reflexivity| |apply mirrors_none].
    apply mirrors_listing; [reflexivity|].
    apply mirrors_file; [reflexivity|]. apply mirrors_none. }
  assert (Hh : height Fake.legacy_forest < 3) by (vm_compute; lia).
  split; [exact Hm|]. split; [exact Hh|].
  exact (get_assets_discovery_order (ee := Fake.client) 3 (inl "users/u/f")
           Fake.legacy_forest Fake.legacy_account Hm Hh).
Defined.

(** *** Runs for the further properties *)

Lemma wait_by_description_witness :
  Task_list (EE := Fake.client) (time_sleep 5 Fake.two_exports)
  = inr ([Fake.table_export] ++ Fake.image_export :: []) /\
  Forall (fun t' => config_description t' <> "toto_image") [Fake.table_export] /\
  config_description Fake.image_export = "toto_image" /\
  let by_name := wait (ee := Fake.client) 13 (inr "toto_image") 60
                      Fake.two_exports in
  let by_task := wait (ee := Fake.client) 13 (inl Fake.image_export) 60
                      Fake.two_exports in
  res by_name = res by_task /\
  remote by_name = remote by_task /\
  exists polls,
    trace by_task = Sleep 5 :: polls /\
    trace by_name = Sleep 5 :: TaskList :: polls.
Proof.
  assert (Hb : Forall (fun t' => config_description t' <> "toto_image")
                      [Fake.table_export]).
  { constructor; [discriminate | constructor]. }
  split; [reflexivity|]. split; [exact Hb|]. split; [reflexivity|].
  exact (wait_by_description (ee := Fake.client) 13 "toto_image" 60
           Fake.two_exports [Fake.table_export] [] Fake.image_export
           eq_refl Hb eq_refl).
Defined.

Lemma wait_returns_last_poll_witness :
  res (wait (ee := Fake.client) 13 (inl Fake.image_export) 60 Fake.exporting)
  = Ok "COMPLETED" /\
  ((polled (trace (wait (ee := Fake.client) 13 (inl Fake.image_export) 60
                        Fake.exporting)) = [] /\
    "COMPLETED" = "UNSUBMITTED") \/
   exists earlier,
     polled (trace (wait (ee := Fake.client) 13 (inl Fake.image_export) 60
                         Fake.exporting)) = earlier ++ ["COMPLETED"]).
Proof.
  split; [reflexivity|].
  apply (wait_returns_last_poll (ee := Fake.client) 13 (inl Fake.image_export)
           60 Fake.exporting "COMPLETED").
  reflexivity.
Defined.

Lemma wait_poll_bound_witness :
  sleep_takes_time (ee := Fake.client) /\
  let n := status_calls
             (trace (wait (ee := Fake.client) 13 (inl Fake.image_export) 3
                          Fake.exporting)) in
  (n = 0 \/ (5 * (Z.of_nat n - 1) < 3)%Z) /\ ((3 <= 0)%Z -> n = 0).
Proof.
  split; [intros secs acc; simpl; lia|].
  apply (wait_poll_bound (ee := Fake.client) 13 (inl Fake.image_export) 3
           Fake.exporting).
  intros secs acc. simpl. lia.
Defined.

Lemma delete_assets_dry_run_announces_witness :
  res (delete_assets (ee := Fake.client) 3 (inl "users/u/f") true
         Fake.legacy_account) = Ok Fake.legacy_dry_run /\
  let run := delete_assets (ee := Fake.client) 3 (inl "users/u/f") false
                           Fake.legacy_account in
  res run <> OutOfFuel /\
  initial_segment (deleted (trace run)) Fake.legacy_dry_run /\
  (forall out', res run = Ok out' ->
     out' = Fake.legacy_dry_run /\ deleted (trace run) = Fake.legacy_dry_run).
Proof.
  split; [reflexivity|].
  apply (delete_assets_dry_run_announces (ee := Fake.client) 3
           (inl "users/u/f") Fake.legacy_account Fake.legacy_dry_run).
  reflexivity.
Defined.

Lemma delete_assets_failed_lookup_witness :
  (getAsset (EE := Fake.client) "users/u/missing" Fake.legacy_account
   = inl (EEException "Asset not found") \/
   (exists info,
      getAsset (EE := Fake.client) "users/u/missing" Fake.legacy_account
      = inr info /\ type info = "FOLDER" /\
      res (get_assets (ee := Fake.client) 3 (inl "users/u/missing")
             Fake.legacy_account) = Raise (EEException "Asset not found"))) /\
  let o := delete_assets (ee := Fake.client) 3 (inl "users/u/missing") false
                         Fake.legacy_account in
  res o = Raise (EEException "Asset not found") /\
  deleted (trace o) = [] /\ remote o = Fake.legacy_account.
Proof.
  split; [left; reflexivity|].
  apply (delete_assets_failed_lookup (ee := Fake.client) 3
           (inl "users/u/missing") false Fake.legacy_account
           (EEException "Asset not found")).
  left. reflexivity.
Defined.

Lemma delete_assets_keeps_listing_order_witness :
  getAsset (EE := Fake.client) "users/u/f" Fake.legacy_account
  = inr (Fake.legacy_asset "FOLDER" "users/u/f") /\
  type (Fake.legacy_asset "FOLDER" "users/u/f") = "FOLDER" /\
  res (get_assets (ee := Fake.client) 3 (inl "users/u/f") Fake.legacy_account)
  = Ok Fake.legacy_listing /\
  exists ordered,
    res (delete_assets (ee := Fake.client) 3 (inl "users/u/f") true
           Fake.legacy_account)
    = Ok (map name ordered ++ ["users/u/f"]) /\
    deepest_first lvl ordered /\
    forall k, at_level k ordered = at_level k Fake.legacy_listing.
Proof.
  split; [reflexivity|]. split; [reflexivity|]. split; [reflexivity|].
  apply (delete_assets_keeps_listing_order (ee := Fake.client) 3
           (inl "users/u/f") Fake.legacy_account
           (Fake.legacy_asset "FOLDER" "users/u/f") Fake.legacy_listing);
    reflexivity.
Defined.

Lemma delete_assets_children_first_witness :
  getAsset (EE := Fake.client) "users/u/f" Fake.legacy_account
  = inr (Fake.legacy_asset "FOLDER" "users/u/f") /\
  type (Fake.legacy_asset "FOLDER" "users/u/f") = "FOLDER" /\
  res (get_assets (ee := Fake.client) 3 (inl "users/u/f") Fake.legacy_account)
  = Ok Fake.legacy_listing /\
  In (Fake.legacy_asset "FOLDER" "users/u/f/sub") Fake.legacy_listing /\
  In (Fake.legacy_asset "TABLE" "users/u/f/sub/fc") Fake.legacy_listing /\
  id (Fake.legacy_asset "TABLE" "users/u/f/sub/fc")
  = (id (Fake.legacy_asset "FOLDER" "users/u/f/sub") ++ "/" ++ "fc")%string /\
  exists out,
    res (delete_assets (ee := Fake.client) 3 (inl "users/u/f") true
           Fake.legacy_account) = Ok out /\
    before (name (Fake.legacy_asset "TABLE" "users/u/f/sub/fc"))
           (name (Fake.legacy_asset "FOLDER" "users/u/f/sub")) out.
Proof.
  assert (Ha : In (Fake.legacy_asset "FOLDER" "users/u/f/sub")
                  Fake.legacy_listing) by (right; left; reflexivity).
  assert (Hb : In (Fake.legacy_asset "TABLE" "users/u/f/sub/fc")
                  Fake.legacy_listing) by (right; right; left; reflexivity).
  split; [reflexivity|]. split; [reflexivity|]. split; [reflexivity|].
  split; [exact Ha|]. split; [exact Hb|]. split; [reflexivity|].
  exact (delete_assets_children_first (ee := Fake.client) 3 (inl "users/u/f")
           Fake.legacy_account (Fake.legacy_asset "FOLDER" "users/u/f")
           Fake.legacy_listing (Fake.legacy_asset "FOLDER" "users/u/f/sub")
           (Fake.legacy_asset "TABLE" "users/u/f/sub/fc") "fc"
           eq_refl eq_refl eq_refl Ha Hb eq_refl).
Defined.

Lemma export_asset_starts_one_task_witness :
  export_task (Image "1") "projects/demo/assets/image" "toto_image"
  = Some Fake.image_export /\
  let o := export_asset (ee := Fake.client) 13 (Image "1")
                        (inl "projects/demo/assets/image") "toto_image"
                        Fake.project in
  mutations (trace o) = [TaskStart Fake.image_export] /\
  (sleep_takes_time (ee := Fake.client) -> status_calls (trace o) <= 12).
Proof.
  split; [reflexivity|].
  apply (export_asset_starts_one_task (ee := Fake.client) 13 (Image "1")
           (inl "projects/demo/assets/image") "toto_image" Fake.project
           Fake.image_export).
  reflexivity.
Defined.

(** *** Runs for [wait] in time and for [init_tree] *)

(** [wait] with a timeout of 6 seconds on an export that takes 12: the
    timeout elapses 6 seconds after the start, when the only poll made has
    observed RUNNING; the loop, which tested the timeout before sleeping,
    polls once more 10 seconds after the start, observes COMPLETED and
    returns it, not the last state polled that is not terminal. *)
Lemma wait_returns_state_polled_after_timeout :
  let o := wait (ee := Fake.client) 13 (inl Fake.image_export) 6
                Fake.exporting in
  let start_time := time_time (time_sleep 5 Fake.exporting) in
  let timed := timed_polls Fake.exporting (trace o) in
  start_time = 1005%Z /\
  timed = [(1010%Z, "RUNNING"); (1015%Z, "COMPLETED")] /\
  res o = Ok "COMPLETED" /\
  ~ returns_last_nonterminal 6 start_time timed (res o).
Proof.
  cbv zeta.
  assert (E1 : time_time (time_sleep 5 Fake.exporting) = 1005%Z)
    by (vm_compute; reflexivity).
  assert (E2 : timed_polls Fake.exporting
                 (trace (wait (ee := Fake.client) 13 (inl Fake.image_export) 6
                              Fake.exporting))
               = [(1010%Z, "RUNNING"); (1015%Z, "COMPLETED")])
    by (vm_compute; reflexivity).
  assert (E3 : res (wait (ee := Fake.client) 13 (inl Fake.image_export) 6
                         Fake.exporting) = Ok "COMPLETED")
    by (vm_compute; reflexivity).
  rewrite E1, E2, E3. repeat split.
  intros H. destruct H as (state & earlier & later & Hres & Hnot & _).
  - intros p [<-|[<-|[]]] Hlt; cbn [fst snd] in *.
    + intros [E|E]; discriminate.
    + lia.
  - inversion Hres; subst state. apply Hnot. left. reflexivity.
Qed.

Lemma wait_returns_observed_state_witness :
  sleep_takes_time (ee := Fake.client) /\
  (0 < 60)%Z /\
  (60 <= 5 * (Z.of_nat 13 - 1))%Z /\
  resolves_to (ee := Fake.client) Fake.two_exports (inr "toto_image")
              Fake.image_export /\
  let o := wait (ee := Fake.client) 13 (inr "toto_image") 60
                Fake.two_exports in
  let start_time := time_time (time_sleep 5 Fake.two_exports) in
  let timed := timed_polls Fake.two_exports (trace o) in
  let polls := polled (trace o) in
  polls = map snd timed /\
  res o <> OutOfFuel /\
  (forall state, res o = Ok state ->
     exists tr earlier,
       trace o = tr ++ [TaskStatus Fake.image_export (inr state)] /\
       timed = earlier ++ [(time_time (remote o), state)] /\
       Forall (fun p => (fst p - start_time < 60)%Z /\ ~ terminal (snd p))
              earlier /\
       (terminal state \/ (60 <= time_time (remote o) - start_time)%Z)) /\
  (In "COMPLETED" polls -> res o = Ok "COMPLETED") /\
  (In "FAILED" polls -> res o = Ok "FAILED") /\
  ((forall p, In p timed -> (fst p - start_time < 60)%Z ->
              ~ terminal (snd p)) ->
     (exists e, res o = Raise e) \/
     exists earlier at_time state,
       timed = earlier ++ [(at_time, state)] /\
       res o = Ok state /\
       (60 <= at_time - start_time)%Z /\
       Forall (fun p => ~ terminal (snd p)) earlier) /\
  (~ In "COMPLETED" polls -> ~ In "FAILED" polls ->
     forall state, res o = Ok state ->
       (60 <= time_time (remote o) - start_time)%Z) /\
  (forall e, res o = Raise e ->
     exists tr, trace o = tr ++ [TaskStatus Fake.image_export (inl e)]).
Proof.
  assert (Hclock : sleep_takes_time (ee := Fake.client))
    by (intros secs acc; simpl; lia).
  assert (Hresolves : resolves_to (ee := Fake.client) Fake.two_exports
                                  (inr "toto_image") Fake.image_export).
  { exists [Fake.table_export], []. split; [reflexivity|].
    split; [|reflexivity]. constructor; [discriminate | constructor]. }
  assert (Hfuel : (60 <= 5 * (Z.of_nat 13 - 1))%Z) by (simpl; lia).
  split; [exact Hclock|]. split; [lia|]. split; [exact Hfuel|].
  split; [exact Hresolves|].
  apply (wait_returns_observed_state (ee := Fake.client) 13 (inr "toto_image")
           Fake.image_export 60 Fake.two_exports Hclock);
    [lia | exact Hfuel | exact Hresolves].
Defined.

Lemma init_tree_creates_the_tree_witness :
  getAssetRoots (EE := Fake.client) Fake.project
  = inr [ {| type := "FOLDER"; name := "projects/demo/assets";
             id := "projects/demo/assets" |} ] /\
  all_exportable example_structure = true /\
  let planned := CreateAsset "FOLDER" "projects/demo/assets/toto"
                 :: plan "toto" (parse_path "projects/demo/assets/toto")
                         example_structure in
  let o := init_tree (ee := Fake.client) 13 example_structure "toto" ""
                     Fake.project in
  exists r',
    perform (ee := Fake.client) 13 planned Fake.project = Some r' /\
    res o = Ok (parse_path "projects/demo/assets/toto") /\
    remote o = r' /\
    mutations (trace o) = planned.
Proof.
  split; [reflexivity|]. split; [reflexivity|]. cbv zeta.
  destruct (init_tree_creates_the_tree (ee := Fake.client) 13
              example_structure "toto" "" Fake.project
              {| type := "FOLDER"; name := "projects/demo/assets";
                 id := "projects/demo/assets" |} [] eq_refl)
    as (Hiff & Hplan & _).
  cbv zeta in Hiff, Hplan.
  eexists. split; [vm_compute; reflexivity|].
  match goal with
  | |- _ /\ remote _ = ?s /\ _ =>
      destruct (proj1 (Hiff s)) as [Hres Hrem];
        [split; [reflexivity | vm_compute; reflexivity]|]
  end.
  split; [exact Hres|]. split; [exact Hrem|].
  exact (proj2 (Hplan _ Hres)).
Defined.
